(** * Capto: directory snapshot builder

    A shallow embedding of the snapshot-model builder of Capto
    (fileContentReader, fileCollector, fontManager, htmlToPdf, wkhtmlToPdf
    and the counting part of the command-line entry point), followed by the
    properties established about it.

    JavaScript strings are sequences of UTF-16 code units, buffers are byte
    lists, `try`/`catch` is an explicit completion type, and the arrays that
    the walker fills with `push` are threaded through as explicit state, so
    that what was pushed before an exception is still there when it is
    caught. *)

From Stdlib Require Import String Ascii Strings.Byte Numbers.DecimalString.
From Stdlib Require Import NArith ZArith Arith Lia Bool List Sorting.Permutation Sorting.Sorted.
Import ListNotations.

Set Implicit Arguments.

(** ** JavaScript strings and template pieces *)

(** A JavaScript string: its UTF-16 code units. *)
Definition jsstring := list N.

(** An ASCII literal of the source text. *)
Definition lit (s : string) : jsstring :=
  map N_of_ascii (list_ascii_of_string s).

(** The double-quote character, which the literals above cannot hold. *)
Definition dq : jsstring := [34%N].

(** `${n}` for a non-negative integer: its decimal digits. *)
Definition number_to_string (n : nat) : jsstring :=
  lit (NilEmpty.string_of_uint (Nat.to_uint n)).

Definition jsstring_eqb (a b : jsstring) : bool :=
  if list_eq_dec N.eq_dec a b then true else false.

(** Truthiness of a possibly-undefined string: `if (s)`, `s || d`. *)
Definition truthy (s : option jsstring) : bool :=
  match s with
  | Some (_ :: _) => true
  | _ => false
  end.

Definition or_default (s : option jsstring) (d : jsstring) : jsstring :=
  match s with
  | Some (c :: r) => c :: r
  | _ => d
  end.

(** `s.split('\n')`: never empty, one more piece than there are newlines. *)
Fixpoint split_newline (s : jsstring) : list jsstring :=
  match s with
  | [] => [[]]
  | c :: r =>
      if N.eqb c 10 then [] :: split_newline r
      else match split_newline r with
           | l :: ls => (c :: l) :: ls
           | [] => [[c]]
           end
  end.

(** `lines.join('\n')`. *)
Fixpoint join_newline (ls : list jsstring) : jsstring :=
  match ls with
  | [] => []
  | [l] => l
  | l :: rest => l ++ 10%N :: join_newline rest
  end.

(** `s.toLowerCase()` on the ASCII letters, the only ones whose lower case
    can occur in the extension table. *)
Definition toLowerCase (s : jsstring) : jsstring :=
  map (fun c => if (N.leb 65 c && N.leb c 90)%bool then (c + 32)%N else c) s.

(** `text.replace(/c/g, by)` for a single-character pattern. *)
Definition replace_char (c : N) (by_ : jsstring) (text : jsstring) : jsstring :=
  flat_map (fun x => if N.eqb x c then by_ else [x]) text.

(** ** Exceptions *)

(** What a `catch (error)` clause can observe of the thrown value. *)
Inductive thrown :=
| ErrorObject (message : jsstring)   (* error instanceof Error *)
| OtherValue (str : jsstring).       (* String(error) *)

(** `error instanceof Error ? error.message : String(error)` *)
Definition thrown_text (e : thrown) : jsstring :=
  match e with
  | ErrorObject m => m
  | OtherValue s => s
  end.

Inductive completion (A : Type) :=
| Normal (v : A)
| Throw (e : thrown).

Arguments Normal {A} v.
Arguments Throw {A} e.

Definition bind {A B} (c : completion A) (k : A -> completion B) : completion B :=
  match c with
  | Normal v => k v
  | Throw e => Throw e
  end.

Definition try_catch {A} (body : completion A) (handler : thrown -> completion A)
  : completion A :=
  match body with
  | Normal v => Normal v
  | Throw e => handler e
  end.

Notation "x <- c ;; k" := (bind c (fun x => k))
  (at level 61, c at next level, right associativity).

(** ** Paths *)

Module Path.

Definition slash : N := 47.

(** `path.basename(p)` for a resolved path: the part after the last `/`. *)
Fixpoint basename (path : jsstring) : jsstring :=
  match path with
  | [] => []
  | c :: r => if existsb (N.eqb slash) r then basename r
              else if N.eqb c slash then r else c :: r
  end.

(** `path.join(dir, name)` for a resolved directory and a plain name. *)
Definition join (dir name : jsstring) : jsstring :=
  dir ++ slash :: name.

(** `path.relative(base, full)` for a path below [base]. *)
Definition relative (base full : jsstring) : jsstring :=
  skipn (S (length base)) full.

(** The suffix starting at the last `.` of a name, if that `.` is not the
    first character. *)
Fixpoint last_dot (name : jsstring) : option jsstring :=
  match name with
  | [] => None
  | c :: r => match last_dot r with
              | Some ext => Some ext
              | None => if N.eqb c 46 then Some (c :: r) else None
              end
  end.

(** `path.extname(p)` *)
Definition extname (p : jsstring) : jsstring :=
  match basename p with
  | [] => []
  | c :: r => match last_dot r with
              | Some ext => if jsstring_eqb (c :: r) (lit "..") then [] else ext
              | None => []
              end
  end.

End Path.

(** ** Collected files *)

Inductive FileType := text | image | binary.

Record CollectedFile := {
  path : jsstring;
  type : FileType;
  relativePath : jsstring
}.

(** ** fileContentReader *)

Module FileContentReader.

(** The file system and the packages the reader and the generator call. *)
Record IO := {
  isBinaryFileSync : jsstring -> completion bool;
  readFileSync : jsstring -> completion (list byte);
  chardet_detect : list byte -> option jsstring;            (* null = None *)
  iconv_decode : list byte -> jsstring -> completion jsstring;
  toString_base64 : list byte -> jsstring                   (* buffer.toString('base64') *)
}.

Record FileContentResult := {
  content : jsstring;
  error : option jsstring;
  encoding : option jsstring
}.

(** The character class `[\x00-\x08\x0E-\x1F\x7F-\x9F]`. *)
Definition is_control (c : N) : bool :=
  (N.leb c 8 || (N.leb 14 c && N.leb c 31) || (N.leb 127 c && N.leb c 159))%bool.

(** `content.match(/[...]/g)`: the matches, or null when there is none. *)
Definition match_control (content : jsstring) : option (list N) :=
  match filter is_control content with
  | [] => None
  | cs => Some cs
  end.

(** `content.charCodeAt(0) === 0xFEFF ? content.slice(1) : content` *)
Definition strip_bom (content : jsstring) : jsstring :=
  match content with
  | c :: rest => if N.eqb c 65279 then rest else content
  | [] => content
  end.

(** The double `0.1` is [tenth_55 / 2^55]. *)
Definition tenth_55 : Z := 3602879701896397.

(** The double nearest to [num / 2^55], ties to even, as a multiple of
    [2^-55]: the 53 leading bits of [num] are kept and the rest is rounded. *)
Definition round_55 (num : Z) : Z :=
  let s := (Z.log2 num - 52)%Z in
  if (s <=? 0)%Z then num
  else
    let q := (num / 2 ^ s)%Z in
    let r := (num mod 2 ^ s)%Z in
    let up := ((2 ^ s <? 2 * r)%Z || ((2 ^ s =? 2 * r)%Z && Z.odd q))%bool in
    ((if up then q + 1 else q) * 2 ^ s)%Z.

(** `count > total * 0.1`, the product being the double product of the
    length and the double `0.1`. *)
Definition exceeds_tenth (count total : nat) : bool :=
  (round_55 (Z.of_nat total * tenth_55) <? Z.of_nat count * 2 ^ 55)%Z.

(** `controlChars && controlChars.length > content.length * 0.1` *)
Definition too_many_control (content : jsstring) : bool :=
  match match_control content with
  | Some controlChars => exceeds_tenth (length controlChars) (length content)
  | None => false
  end.

(** The body of the `try` block; the `console.log` of the detected encoding
    leaves no trace in the result. *)
Definition getFileContent_try (io : IO) (filePath : jsstring)
  : completion FileContentResult :=
  binary <- isBinaryFileSync io filePath ;;
  if binary then
    Normal {| content := [];
              error := Some (lit "Binary file (content not displayed)");
              encoding := None |}
  else
    buffer <- readFileSync io filePath ;;
    let detected := chardet_detect io buffer in
    let enc := or_default detected (lit "utf8") in
    decoded <- iconv_decode io buffer enc ;;
    let content := strip_bom decoded in
    if too_many_control content then
      Normal {| content := [];
                error := Some (lit "File contains control characters (content not displayed)");
                encoding := Some enc |}
    else
      Normal {| content := content; error := None; encoding := Some enc |}.

Definition getFileContent (io : IO) (filePath : jsstring)
  : completion FileContentResult :=
  try_catch (getFileContent_try io filePath)
    (fun e =>
       Normal {| content := [];
                 error := Some (lit "Reading error: " ++ thrown_text e);
                 encoding := None |}).

End FileContentReader.

(** ** htmlToPdf *)

Module HTMLToPDFGenerator.
Import FileContentReader.

Definition _escapeHTML (text : jsstring) : jsstring :=
  replace_char 39 (lit "&#039;")
    (replace_char 34 (lit "&quot;")
       (replace_char 62 (lit "&gt;")
          (replace_char 60 (lit "&lt;")
             (replace_char 38 (lit "&amp;") text)))).

(** `<tag class="cls">` *)
Definition open_tag (tag cls : string) : jsstring :=
  lit "<" ++ lit tag ++ lit " class=" ++ dq ++ lit cls ++ dq ++ lit ">".

Definition maxLines : nat := 500.
Definition maxLineLength : nat := 300.

(** `<p class="binary-notice">${_escapeHTML(error)}</p>` *)
Definition notice (message : jsstring) : jsstring :=
  open_tag "p" "binary-notice" ++ _escapeHTML message ++ lit "</p>".

(** `<div class="encoding-info">Encoding: ${encoding}</div>` *)
Definition encoding_info (enc : jsstring) : jsstring :=
  open_tag "div" "encoding-info" ++ lit "Encoding: " ++ enc ++ lit "</div>".

(** The per-line cap. *)
Definition displayLine (line : jsstring) : jsstring :=
  if Nat.ltb maxLineLength (length line)
  then firstn maxLineLength line ++ lit "..."
  else line.

(** One numbered line of the `<pre>` block. *)
Definition line_span (lineNumber : nat) (line : jsstring) : jsstring :=
  open_tag "span" "file-content-line"
    ++ open_tag "span" "line-number" ++ number_to_string lineNumber ++ lit "</span>"
    ++ _escapeHTML (displayLine line) ++ lit "</span>" ++ [10%N].

(** `for (let i = ...; i < displayLines.length; i++) html += ...`, with
    [todo] iterations left to run. *)
Fixpoint for_lines (todo i : nat) (displayLines : list jsstring) (html : jsstring)
  : jsstring :=
  match todo with
  | 0 => html
  | S todo' =>
      let lineNumber := i + 1 in
      let line := nth i displayLines [] in
      for_lines todo' (S i) displayLines (html ++ line_span lineNumber line)
  end.

(** `\n\n... (${k} more lines)` *)
Definition omission_marker (k : nat) : jsstring :=
  [10%N; 10%N] ++ lit "... (" ++ number_to_string k ++ lit " more lines)".

Definition _generateTextFileHTML (io : IO) (file : CollectedFile)
  : completion jsstring :=
  r <- getFileContent io (path file) ;;
  if truthy (error r) then
    Normal (notice (or_default (error r) []))
  else
    let html := if truthy (encoding r)
                then encoding_info (or_default (encoding r) [])
                else [] in
    let contentLines := split_newline (content r) in
    let displayLines := if Nat.ltb maxLines (length contentLines)
                        then firstn maxLines contentLines
                        else contentLines in
    let html := html ++ lit "<pre>" in
    let html := for_lines (length displayLines) 0 displayLines html in
    let html := if Nat.ltb maxLines (length contentLines)
                then html ++ omission_marker (length contentLines - maxLines)
                else html in
    Normal (html ++ lit "</pre>").

Definition mimeTypes : list (jsstring * jsstring) :=
  map (fun kv : string * string => (lit (fst kv), lit (snd kv)))
    [(".jpg", "image/jpeg"); (".jpeg", "image/jpeg"); (".png", "image/png");
     (".gif", "image/gif"); (".bmp", "image/bmp"); (".webp", "image/webp");
     (".svg", "image/svg+xml"); (".tiff", "image/tiff"); (".tif", "image/tiff")]%string.

(** `mimeTypes[ext] || 'application/octet-stream'` *)
Definition _getMimeType (filePath : jsstring) : jsstring :=
  let ext := toLowerCase (Path.extname filePath) in
  match find (fun kv => jsstring_eqb ext (fst kv)) mimeTypes with
  | Some kv => snd kv
  | None => lit "application/octet-stream"
  end.

Definition newline_indent (n : nat) : jsstring := 10%N :: repeat 32%N n.

Definition _generateImageHTML (io : IO) (file : CollectedFile) : completion jsstring :=
  try_catch
    (fileContent <- readFileSync io (path file) ;;
     let base64 := toString_base64 io fileContent in
     let mimeType := _getMimeType (path file) in
     let dataUrl := lit "data:" ++ mimeType ++ lit ";base64," ++ base64 in
     Normal (newline_indent 8 ++ open_tag "div" "image-container"
               ++ newline_indent 10 ++ lit "<p>Image file: "
               ++ _escapeHTML (Path.basename (path file)) ++ lit "</p>"
               ++ newline_indent 10 ++ lit "<img src=" ++ dq ++ dataUrl ++ dq
               ++ lit " alt=" ++ dq ++ _escapeHTML (Path.basename (path file)) ++ dq
               ++ lit " />"
               ++ newline_indent 8 ++ lit "</div>"
               ++ newline_indent 6))
    (fun e =>
       Normal (open_tag "p" "binary-notice" ++ lit "Failed to load image: "
                 ++ _escapeHTML (thrown_text e) ++ lit "</p>")).

(** `for (const file of files) { html += ... }` *)
Fixpoint _generateFileContentsHTML_from (io : IO) (files : list CollectedFile)
    (html : jsstring) : completion jsstring :=
  match files with
  | [] => Normal html
  | file :: rest =>
      let html := html ++ open_tag "div" "file-path" ++ lit "/"
                       ++ _escapeHTML (relativePath file) ++ lit ":</div>" in
      section <- match type file with
                 | image => _generateImageHTML io file
                 | binary => Normal (open_tag "p" "binary-notice"
                                       ++ lit "Binary file (content not displayed)"
                                       ++ lit "</p>")
                 | text => _generateTextFileHTML io file
                 end ;;
      _generateFileContentsHTML_from io rest (html ++ section)
  end.

Definition _generateFileContentsHTML (io : IO) (files : list CollectedFile)
  : completion jsstring :=
  _generateFileContentsHTML_from io files [].

End HTMLToPDFGenerator.

(** ** The `ignore` package *)

(** Modelled from the spec: the `ignore` package that IgnoreRulesManager
    wraps is a dependency, not part of the sources.  The spec describes it as
    an ordered list of gitignore patterns (negatable with `!`, `*` and `**`
    globs, anchored when the pattern contains a `/`, directory-only with a
    trailing `/`) evaluated in full for every path, the last matching rule's
    polarity being the verdict. *)
Module Ignore.

(** Modelled from the spec: a pattern rule and its polarity. *)
Record Rule := { negative : bool; pattern : jsstring }.

(** Modelled from the spec: one line of an ignore file or one caller-supplied pattern: blank lines
    and `#` comments give no rule, a leading `!` negates. *)
Definition parse_pattern (line : jsstring) : option Rule :=
  if forallb (N.eqb 32) line then None
  else match line with
       | 35%N :: _ => None
       | 33%N :: p => Some {| negative := true; pattern := p |}
       | p => Some {| negative := false; pattern := p |}
       end.

(** Modelled from the spec: wildcard matching; `?` is one character and `*` any run of characters
    other than `/`; `**` also runs across `/`. *)
Fixpoint glob (pat s : jsstring) {struct pat} : bool :=
  match pat with
  | [] => match s with [] => true | _ => false end
  | 42%N :: 42%N :: pat' =>
      (fix any (s : jsstring) : bool :=
         glob pat' s || match s with
                        | [] => false
                        | _ :: s' => any s'
                        end) s
  | 42%N :: pat' =>
      (fix run (s : jsstring) : bool :=
         glob pat' s || match s with
                        | [] => false
                        | c :: s' => negb (N.eqb c Path.slash) && run s'
                        end) s
  | 63%N :: pat' =>
      match s with
      | c :: s' => negb (N.eqb c Path.slash) && glob pat' s'
      | [] => false
      end
  | p :: pat' =>
      match s with
      | c :: s' => N.eqb c p && glob pat' s'
      | [] => false
      end
  end.

(** Modelled from the spec: the mark of a directory. *)
Definition ends_with_slash (s : jsstring) : bool :=
  match rev s with
  | c :: _ => N.eqb c Path.slash
  | [] => false
  end.

(** Modelled from the spec: a pattern without `/` matches the last segment of the path at any
    depth; a pattern with one is anchored at the root; a pattern ending in
    `/` only matches a path that is itself written with a trailing `/`. *)
Definition matches (pat path : jsstring) : bool :=
  let dir_only := ends_with_slash pat in
  let pat := if dir_only then removelast pat else pat in
  let target := if ends_with_slash path then removelast path else path in
  (if dir_only then ends_with_slash path else true)
  && match pat with
     | 47%N :: anchored => glob anchored target
     | _ => if existsb (N.eqb Path.slash) pat then glob pat target
            else glob pat (Path.basename target)
     end.

(** Modelled from the spec: `ig.add(text)`, one rule per line. *)
Definition add (rules : list Rule) (text : jsstring) : list Rule :=
  rules ++ flat_map (fun line => match parse_pattern line with
                                 | Some r => [r]
                                 | None => []
                                 end) (split_newline text).


(** Modelled from the spec: `ig.ignores(path)`; every rule is tried in order
    and the last one that matches decides. *)
Definition ignores (rules : list Rule) (path : jsstring) : bool :=
  fold_left (fun verdict r =>
               if matches (pattern r) path then negb (negative r) else verdict)
            rules false.

End Ignore.

(** ** fileCollector *)

Module IgnoreRulesManager.


Definition ignores (ig : list Ignore.Rule) (relativePath : jsstring) : bool :=
  Ignore.ignores ig relativePath.

End IgnoreRulesManager.

(** The directory tree under the base directory, as `readdirSync`,
    `statSync` and the binary probe report it.  A directory lists its names
    in the order the operating system returns them, or cannot be listed.  A
    listed name is a directory, a file that carries what `isBinaryFileSync`
    answers or throws for it, or a name on which `statSync` throws (a
    dangling link, a name removed since the listing). *)
Inductive node :=
| File (isBinaryFileSync : completion bool)
| Dir (d : directory)
| NoStat (e : thrown)
with directory :=
| Listing (items : list (jsstring * node))
| Unreadable (e : thrown).

(** `fs.statSync(path).isDirectory()` *)
Definition statSync_isDirectory (child : node) : completion bool :=
  match child with
  | Dir _ => Normal true
  | File _ => Normal false
  | NoStat e => Throw e
  end.

(** `xs.sort(cmp)` with a comparison function that can throw: [cmp a b] is
    positive when [a] goes after [b], and the first exception it throws ends
    the sort.  The sort of the engine is stable, and so is this one; which
    comparisons it makes, and in which order, is the engine's choice, here
    those of an insertion sort: when several comparisons would throw, the
    engine may meet another of them first. *)
Section Sort.
Variable A : Type.
Variable cmp : A -> A -> completion Z.

Fixpoint sort_insert (x : A) (l : list A) : completion (list A) :=
  match l with
  | [] => Normal [x]
  | y :: l' =>
      order <- cmp x y ;;
      if Z.ltb 0 order
      then (rest <- sort_insert x l' ;; Normal (y :: rest))
      else Normal (x :: l)
  end.

Fixpoint sort (l : list A) : completion (list A) :=
  match l with
  | [] => Normal []
  | x :: l' => sorted <- sort l' ;; sort_insert x sorted
  end.
End Sort.

(** `xs.forEach((x, index) => ...)` over an array that the callback fills:
    the first exception ends the loop, and what was pushed stays. *)
Fixpoint forEach {A St : Type} (f : A -> nat -> St -> completion unit * St)
    (xs : list A) (index : nat) (st : St) : completion unit * St :=
  match xs with
  | [] => (Normal tt, st)
  | x :: rest =>
      match f x index st with
      | (Normal _, st') => forEach f rest (S index) st'
      | (Throw e, st') => (Throw e, st')
      end
  end.

(** `try { body } catch (error) { handler }` around code that fills an
    array. *)
Definition try_catch_pushing {St : Type} (body : completion unit * St)
    (handler : thrown -> St -> St) : St :=
  match body with
  | (Normal _, st) => st
  | (Throw e, st) => handler e st
  end.

Module FileCollector.

Section Collector.
(** The fields of the collector, and the collation of the host. *)
Variable baseDir : jsstring.
Variable ignores : jsstring -> bool.
Variable isRecursive : bool.
Variable localeCompare : jsstring -> jsstring -> Z.

Definition imageExts : list jsstring :=
  map lit [".jpg"; ".jpeg"; ".png"; ".gif"; ".bmp"; ".webp"; ".svg"; ".tiff"; ".tif"]%string.

(** `_detectFileType(filePath)`; [isBinaryFileSync] is what the probe
    answers or throws for the file, and is consulted only when the extension
    is not one of an image. *)
Definition _detectFileType (filePath : jsstring) (isBinaryFileSync : completion bool)
  : completion FileType :=
  let ext := toLowerCase (Path.extname filePath) in
  if existsb (jsstring_eqb ext) imageExts then Normal image
  else
    isBinary <- isBinaryFileSync ;;
    Normal (if isBinary then binary else text).

(** `_collectFilesRecursive(dirPath, result)`; [dir] is what the file
    system holds at [dirPath].  Whatever is thrown while the directory is
    listed or walked is logged: the files pushed so far stay, the rest of the
    directory is not visited. *)
Fixpoint _collectFilesRecursive (dir : directory) (dirPath : jsstring)
    (result : list CollectedFile) {struct dir} : list CollectedFile :=
  try_catch_pushing
    match dir with
    | Unreadable e => (Throw e, result)
    | Listing files =>
        forEach (fun (entry : jsstring * node) (_ : nat) result =>
                   let (file, child) := entry in
                   let fullPath := Path.join dirPath file in
                   let relativePath := Path.relative baseDir fullPath in
                   if ignores relativePath then (Normal tt, result)
                   else match child with
                        | NoStat e => (Throw e, result)
                        | Dir sub =>
                            if isRecursive
                            then (Normal tt, _collectFilesRecursive sub fullPath result)
                            else (Normal tt, result)
                        | File isBinary =>
                            match _detectFileType fullPath isBinary with
                            | Normal type =>
                                (Normal tt,
                                 result ++ [{| path := fullPath;
                                               type := type;
                                               relativePath := relativePath |}])
                            | Throw e => (Throw e, result)
                            end
                        end)
                files 0 result
    end
    (fun _ result => result).

Definition collectFiles (root : directory) : list CollectedFile :=
  _collectFilesRecursive root baseDir [].

(** A listed name together with what `statSync(...).isDirectory()` gives
    for it and, for a directory, the walk below it. *)
Record Item (W : Type) := {
  name : jsstring;
  isDir : completion bool;
  subtree : W
}.

(** The comparison function given to `items.sort`. *)
Definition compareItems {W : Type} (a b : Item W) : completion Z :=
  aIsDir <- isDir a ;;
  bIsDir <- isDir b ;;
  Normal (if (aIsDir && negb bIsDir)%bool then (-1)%Z
          else if (negb aIsDir && bIsDir)%bool then 1%Z
          else localeCompare (name a) (name b)).

Definition last_connector : jsstring := [9492; 9472; 9472; 32]%N.  (* "└── " *)
Definition mid_connector : jsstring := [9500; 9472; 9472; 32]%N.   (* "├── " *)
Definition last_indent : jsstring := lit "    ".
Definition mid_indent : jsstring := 9474%N :: lit "   ".           (* "│   " *)

(** The callback of `sortedItems.forEach` in `_buildTree`. *)
Definition buildTree_item (currentDir prefix : jsstring) (depth total : nat)
    (item : Item (jsstring -> nat -> list jsstring -> list jsstring))
    (index : nat) (treeLines : list jsstring) : completion unit * list jsstring :=
  let fullPath := Path.join currentDir (name item) in
  let relativePath := Path.relative baseDir fullPath in
  match isDir item with
  | Throw e => (Throw e, treeLines)
  | Normal isDir =>
      if ignores relativePath then (Normal tt, treeLines)
      else
        let connector := if Nat.eqb index (total - 1)
                         then last_connector else mid_connector in
        let treeLines :=
          treeLines ++ [prefix ++ connector ++ name item
                          ++ (if isDir then lit "/" else [])] in
        if (isDir && isRecursive)%bool then
          let nextPrefix := prefix ++ (if Nat.eqb index (total - 1)
                                       then last_indent else mid_indent) in
          (Normal tt, subtree item nextPrefix (depth + 1) treeLines)
        else (Normal tt, treeLines)
  end.

(** `_buildTree(currentDir, prefix, depth, treeLines)`.  The sort moves
    the names around, so each name is paired with the walk below it before
    the sort, and the callback runs that walk where the source calls
    `_buildTree` again.  Whatever is thrown while the directory is listed,
    sorted or drawn is caught and pushed as one `Error:` line. *)
Fixpoint _buildTree (dir : directory) (currentDir prefix : jsstring) (depth : nat)
    (treeLines : list jsstring) {struct dir} : list jsstring :=
  if (Nat.ltb 0 depth && negb isRecursive)%bool then treeLines
  else
    try_catch_pushing
      match dir with
      | Unreadable e => (Throw e, treeLines)
      | Listing items =>
          let stat := map (fun entry : jsstring * node =>
                             let (item, child) := entry in
                             {| name := item;
                                isDir := statSync_isDirectory child;
                                subtree := match child with
                                           | Dir sub => _buildTree sub (Path.join currentDir item)
                                           | _ => fun _ _ treeLines => treeLines
                                           end |}) items in
          match sort compareItems stat with
          | Throw e => (Throw e, treeLines)
          | Normal sortedItems =>
              forEach (buildTree_item currentDir prefix depth (length sortedItems))
                      sortedItems 0 treeLines
          end
      end
      (fun error treeLines =>
         treeLines ++ [prefix ++ lit "Error: " ++ thrown_text error]).

(** `getDirectoryStructure()` *)
Definition getDirectoryStructure (root : directory) : list jsstring :=
  let treeLines := [Path.basename baseDir ++ lit "/"] in
  _buildTree root baseDir [] 0 treeLines.

End Collector.

End FileCollector.

(** ** The per-kind counts of the entry point and of `generatePDF` *)

Definition is_type (t : FileType) (f : CollectedFile) : bool :=
  match t, type f with
  | text, text | image, image | binary, binary => true
  | _, _ => false
  end.

(** `files.filter(f => f.type === t).length` *)
Definition count_type (t : FileType) (files : list CollectedFile) : nat :=
  length (filter (is_type t) files).

(** ** Vocabulary of the statements *)

(** The four shapes a result can have. *)
Inductive result_shape : FileContentReader.FileContentResult -> Prop :=
| shape_binary :
    result_shape {| FileContentReader.content := [];
                    FileContentReader.error := Some (lit "Binary file (content not displayed)");
                    FileContentReader.encoding := None |}
| shape_control detected :
    result_shape {| FileContentReader.content := [];
                    FileContentReader.error := Some (lit "File contains control characters (content not displayed)");
                    FileContentReader.encoding := Some (or_default detected (lit "utf8")) |}
| shape_failed e :
    result_shape {| FileContentReader.content := [];
                    FileContentReader.error := Some (lit "Reading error: " ++ thrown_text e);
                    FileContentReader.encoding := None |}
| shape_text s detected :
    result_shape {| FileContentReader.content := s;
                    FileContentReader.error := None;
                    FileContentReader.encoding := Some (or_default detected (lit "utf8")) |}.

(** The numbered lines of a `<pre>` block, the first one numbered [start]. *)
Fixpoint numbered_lines (start : nat) (ls : list jsstring) : jsstring :=
  match ls with
  | [] => []
  | l :: rest => HTMLToPDFGenerator.line_span start l ++ numbered_lines (S start) rest
  end.

(** The header of a successfully read file. *)
Definition encoding_header (r : FileContentReader.FileContentResult) : jsstring :=
  match FileContentReader.encoding r with
  | Some (c :: enc) => HTMLToPDFGenerator.encoding_info (c :: enc)
  | _ => []
  end.

(** A buffer read as text, each byte being the character of the same code. *)
Definition bytes_as_text (buffer : list byte) : jsstring := map Byte.to_N buffer.

(** The bytes of plain text: printable ASCII, tab, line feed and carriage
    return. *)
Definition printable_ascii (b : byte) : bool :=
  let c := Byte.to_N b in
  ((N.leb 32 c && N.leb c 126) || N.eqb c 9 || N.eqb c 10 || N.eqb c 13)%bool.

(** A numbered line shown in full. *)
Definition full_line_span (lineNumber : nat) (line : jsstring) : jsstring :=
  HTMLToPDFGenerator.open_tag "span" "file-content-line"
    ++ HTMLToPDFGenerator.open_tag "span" "line-number"
    ++ number_to_string lineNumber ++ lit "</span>"
    ++ HTMLToPDFGenerator._escapeHTML line ++ lit "</span>" ++ [10%N].

Fixpoint full_lines (start : nat) (ls : list jsstring) : jsstring :=
  match ls with
  | [] => []
  | l :: rest => full_line_span start l ++ full_lines (S start) rest
  end.

(** The replacement `_escapeHTML` makes for one character. *)
Definition escape_char (c : N) : jsstring :=
  if N.eqb c 38 then lit "&amp;"
  else if N.eqb c 60 then lit "&lt;"
  else if N.eqb c 62 then lit "&gt;"
  else if N.eqb c 34 then lit "&quot;"
  else if N.eqb c 39 then lit "&#039;"
  else [c].

(** Reading the five entities back. *)
Fixpoint unescapeHTML (s : jsstring) : jsstring :=
  match s with
  | 38%N :: 97%N :: 109%N :: 112%N :: 59%N :: rest => 38%N :: unescapeHTML rest
  | 38%N :: 108%N :: 116%N :: 59%N :: rest => 60%N :: unescapeHTML rest
  | 38%N :: 103%N :: 116%N :: 59%N :: rest => 62%N :: unescapeHTML rest
  | 38%N :: 113%N :: 117%N :: 111%N :: 116%N :: 59%N :: rest => 34%N :: unescapeHTML rest
  | 38%N :: 35%N :: 48%N :: 51%N :: 57%N :: 59%N :: rest => 39%N :: unescapeHTML rest
  | c :: rest => c :: unescapeHTML rest
  | [] => []
  end.

(** The text of a text section, written out character by character. *)

(** The header naming the encoding, if the result has one. *)
Definition rendered_header (r : FileContentReader.FileContentResult) : jsstring :=
  match FileContentReader.encoding r with
  | Some (c :: enc) =>
      lit "<div class=" ++ dq ++ lit "encoding-info" ++ dq ++ lit ">Encoding: "
        ++ (c :: enc) ++ lit "</div>"
  | _ => []
  end.

(** One line of the block: its number, then the line, cut after 300
    characters and escaped, then a line feed. *)
Definition rendered_line (number : nat) (line : jsstring) : jsstring :=
  lit "<span class=" ++ dq ++ lit "file-content-line" ++ dq ++ lit ">"
    ++ lit "<span class=" ++ dq ++ lit "line-number" ++ dq ++ lit ">"
    ++ number_to_string number ++ lit "</span>"
    ++ flat_map escape_char (if Nat.ltb 300 (length line)
                             then firstn 300 line ++ lit "..."
                             else line)
    ++ lit "</span>" ++ [10%N].

(** The lines of the block, the first one numbered [start]. *)
Fixpoint rendered_lines (start : nat) (ls : list jsstring) : jsstring :=
  match ls with
  | [] => []
  | l :: rest => rendered_line start l ++ rendered_lines (S start) rest
  end.

(** The paragraph shown in place of the content. *)
Definition rendered_notice (message : jsstring) : jsstring :=
  lit "<p class=" ++ dq ++ lit "binary-notice" ++ dq ++ lit ">"
    ++ flat_map escape_char message ++ lit "</p>".

(** [part] occurs in [whole] as a run of consecutive elements. *)
Definition run_of {A : Type} (part whole : list A) : Prop :=
  exists before after, whole = before ++ part ++ after.

(** [l] is [l'] with some elements left out, the others in the same order. *)
Inductive subsequence {A : Type} : list A -> list A -> Prop :=
| subsequence_nil : subsequence [] []
| subsequence_skip x l l' : subsequence l l' -> subsequence l (x :: l')
| subsequence_keep x l l' : subsequence l l' -> subsequence (x :: l) (x :: l').

(** [g x index] for each element and its index, concatenated. *)
Fixpoint flat_mapi {A B : Type} (g : A -> nat -> list B) (xs : list A) (index : nat)
  : list B :=
  match xs with
  | [] => []
  | x :: rest => g x index ++ flat_mapi g rest (S index)
  end.

(** The elements of [l] before the first one at which [stop] holds. *)
Fixpoint until {A : Type} (stop : A -> bool) (l : list A) : list A :=
  match l with
  | [] => []
  | x :: rest => if stop x then [] else x :: until stop rest
  end.

(** The stable sort by a comparison that does not throw. *)
Section StableSort.
Variable A : Type.
Variable cmp : A -> A -> Z.

Fixpoint stable_insert (x : A) (l : list A) : list A :=
  match l with
  | [] => [x]
  | y :: l' => if Z.ltb 0 (cmp x y) then y :: stable_insert x l' else x :: l
  end.

Definition stable_sort (l : list A) : list A := fold_right stable_insert [] l.
End StableSort.

Section Walks.
Variable baseDir : jsstring.
Variable ignores : jsstring -> bool.
Variable isRecursive : bool.
Variable localeCompare : jsstring -> jsstring -> Z.

Definition is_directory (child : node) : bool :=
  match child with
  | Dir _ => true
  | _ => false
  end.

(** `statSync` answers for the name. *)
Definition stat_ok (child : node) : bool :=
  match child with
  | NoStat _ => false
  | _ => true
  end.

(** If the name is a file, the binary probe answers for it. *)
Definition probe_ok (child : node) : bool :=
  match child with
  | File (Throw _) => false
  | _ => true
  end.

(** Every name of a listing can be stat'ed. *)
Definition all_stat_ok (items : list (jsstring * node)) : bool :=
  forallb (fun entry => stat_ok (snd entry)) items.

(** Every name of a listing can be stat'ed and, if a file, probed. *)
Definition entries_ok (items : list (jsstring * node)) : bool :=
  forallb (fun entry => stat_ok (snd entry) && probe_ok (snd entry))%bool items.

(** What `_buildTree` sorts: a listed entry with its kind and the walk
    [walk] below it ([leaf] for a name that is no directory). *)
Definition stat_item {W : Type} (walk : directory -> jsstring -> W) (leaf : W)
    (currentDir : jsstring) (entry : jsstring * node) : FileCollector.Item W :=
  let (item, child) := entry in
  {| FileCollector.name := item;
     FileCollector.isDir := statSync_isDirectory child;
     FileCollector.subtree := match child with
                              | Dir sub => walk sub (Path.join currentDir item)
                              | _ => leaf
                              end |}.

(** The sort comparison of `_buildTree` on entries that can be stat'ed:
    directories first, then by `localeCompare`. *)
Definition entry_compare (a b : jsstring * node) : Z :=
  if (is_directory (snd a) && negb (is_directory (snd b)))%bool then (-1)%Z
  else if (negb (is_directory (snd a)) && is_directory (snd b))%bool then 1%Z
  else localeCompare (fst a) (fst b).

(** The comparison function given to `items.sort`, on the listed entries
    themselves. *)
Definition compare_entries (a b : jsstring * node) : completion Z :=
  aIsDir <- statSync_isDirectory (snd a) ;;
  bIsDir <- statSync_isDirectory (snd b) ;;
  Normal (if (aIsDir && negb bIsDir)%bool then (-1)%Z
          else if (negb aIsDir && bIsDir)%bool then 1%Z
          else localeCompare (fst a) (fst b)).

(** The walk of the files of a directory ends at this entry: it is not
    ignored and it cannot be stat'ed, or it is a file whose type cannot be
    told. *)
Definition stops (dirPath : jsstring) (entry : jsstring * node) : bool :=
  let fullPath := Path.join dirPath (fst entry) in
  if ignores (Path.relative baseDir fullPath) then false
  else match snd entry with
       | NoStat _ => true
       | Dir _ => false
       | File isBinary =>
           match FileCollector._detectFileType fullPath isBinary with
           | Normal _ => false
           | Throw _ => true
           end
       end.

(** The files below a directory, depth first, each directory in the order it
    is listed and up to the first entry at which its walk ends. *)
Fixpoint files_of (dir : directory) (dirPath : jsstring) : list CollectedFile :=
  match dir with
  | Unreadable _ => []
  | Listing files =>
      (fix each (l : list (jsstring * node)) : list CollectedFile :=
         match l with
         | [] => []
         | (file, child) :: rest =>
             let fullPath := Path.join dirPath file in
             let relativePath := Path.relative baseDir fullPath in
             if ignores relativePath then each rest
             else match child with
                  | NoStat _ => []
                  | Dir sub =>
                      (if isRecursive then files_of sub fullPath else []) ++ each rest
                  | File isBinary =>
                      match FileCollector._detectFileType fullPath isBinary with
                      | Normal type =>
                          {| path := fullPath; type := type; relativePath := relativePath |}
                            :: each rest
                      | Throw _ => []
                      end
                  end
         end) files
  end.

(** The files one entry of a directory contributes. *)
Definition entry_files (dirPath : jsstring) (entry : jsstring * node)
  : list CollectedFile :=
  let fullPath := Path.join dirPath (fst entry) in
  let relativePath := Path.relative baseDir fullPath in
  if ignores relativePath then []
  else match snd entry with
       | NoStat _ => []
       | Dir sub => if isRecursive then files_of sub fullPath else []
       | File isBinary =>
           match FileCollector._detectFileType fullPath isBinary with
           | Normal type =>
               [{| path := fullPath; type := type; relativePath := relativePath |}]
           | Throw _ => []
           end
       end.

(** The connector and the indentation of the entry at an index of a
    sorted listing of [total] names. *)
Definition connector_at (total index : nat) : jsstring :=
  if Nat.eqb index (total - 1)
  then FileCollector.last_connector else FileCollector.mid_connector.

Definition indent_at (total index : nat) : jsstring :=
  if Nat.eqb index (total - 1)
  then FileCollector.last_indent else FileCollector.mid_indent.

(** A directory below the base directory: the part of its path after the
    base directory is empty or starts with `/`. *)
Definition below (suffix : jsstring) : Prop :=
  suffix = [] \/ exists s, suffix = Path.slash :: s.

(** The lines `_buildTree` draws for one entry of a directory with a given
    connector and, for what lies below a subdirectory, a given indentation. *)
Definition drawn (currentDir prefix : jsstring) (depth : nat)
    (connector indent : jsstring) (entry : jsstring * node) : list jsstring :=
  if ignores (Path.relative baseDir (Path.join currentDir (fst entry))) then []
  else
    (prefix ++ connector ++ fst entry ++ (if is_directory (snd entry) then lit "/" else []))
    :: match snd entry with
       | Dir sub =>
           if isRecursive
           then FileCollector._buildTree baseDir ignores isRecursive localeCompare sub
                  (Path.join currentDir (fst entry)) (prefix ++ indent) (depth + 1) []
           else []
       | _ => []
       end.



(** The directories a full walk from the root reaches through listings
    whose names can all be stat'ed and probed: the root, and every
    subdirectory of such a reached directory that is not ignored.  Each
    comes with its path and its depth. *)
Inductive reached (root : directory) : directory -> jsstring -> nat -> Prop :=
| reached_root : reached root root baseDir 0
| reached_sub items dirPath depth item sub :
    reached root (Listing items) dirPath depth ->
    entries_ok items = true ->
    In (item, Dir sub) items ->
    ignores (Path.relative baseDir (Path.join dirPath item)) = false ->
    reached root sub (Path.join dirPath item) (S depth).

(** Every directory is listed in the order `_buildTree` sorts it into. *)
Fixpoint listed_in_tree_order (dir : directory) : Prop :=
  match dir with
  | Unreadable _ => True
  | Listing items =>
      stable_sort entry_compare items = items
      /\ (fix below (l : list (jsstring * node)) : Prop :=
            match l with
            | [] => True
            | (_, Dir sub) :: rest => listed_in_tree_order sub /\ below rest
            | _ :: rest => below rest
            end) items
  end.

(** Every directory can be listed, and every listed name is a plain name
    (it holds no `/`) that can be stat'ed and, if a file, probed. *)
Fixpoint regular (dir : directory) : bool :=
  match dir with
  | Unreadable _ => false
  | Listing items =>
      forallb (fun entry : jsstring * node =>
                 let (item, child) := entry in
                 negb (existsb (N.eqb Path.slash) item)
                 && match child with
                    | File (Normal _) => true
                    | File (Throw _) => false
                    | Dir sub => regular sub
                    | NoStat _ => false
                    end)%bool items
  end.

(** Every listed name, at any depth, can be stat'ed and, if a file,
    probed. *)
Fixpoint sound (dir : directory) : bool :=
  match dir with
  | Unreadable _ => true
  | Listing items =>
      forallb (fun entry : jsstring * node =>
                 match snd entry with
                 | File (Normal _) => true
                 | File (Throw _) => false
                 | Dir sub => sound sub
                 | NoStat _ => false
                 end) items
  end.

End Walks.

(** Reading the tree lines back. *)

(** The depth of a relative path: the number of `/` in it. *)
Definition count_slashes (relativePath : jsstring) : nat :=
  length (filter (N.eqb Path.slash) relativePath).

(** The line draws the entry of that relative path: after four characters
    of indentation for each directory above it comes a connector, then the
    name. *)
Definition shows (line relativePath : jsstring) : bool :=
  let depth := count_slashes relativePath in
  let connector := firstn 4 (skipn (4 * depth) line) in
  ((jsstring_eqb connector FileCollector.mid_connector
    || jsstring_eqb connector FileCollector.last_connector)
   && jsstring_eqb (skipn (4 * depth + 4) line) (Path.basename relativePath))%bool.

(** The lines show the relative paths, one each, in order. *)
Fixpoint all_show (lines relativePaths : list jsstring) : bool :=
  match lines, relativePaths with
  | [], [] => true
  | line :: lines', relativePath :: relativePaths' =>
      (shows line relativePath && all_show lines' relativePaths')%bool
  | _, _ => false
  end.

(** The line of a directory ends in `/`. *)
Definition is_directory_line (line : jsstring) : bool :=
  match rev line with
  | c :: _ => N.eqb c Path.slash
  | [] => false
  end.

(** The lines below the root line that do not draw a directory. *)
Definition file_lines (treeLines : list jsstring) : list jsstring :=
  filter (fun line => negb (is_directory_line line)) (tl treeLines).


(** ** Example inputs *)

Module Examples.
Import FileContentReader.

(** A file system in which every path is a readable text file holding
    [bytes]; the detector answers [label] and the decoder is the one of an
    ASCII-compatible single-byte charset. *)
Definition text_file_io (bytes : list byte) (label : option jsstring) : IO :=
  {| isBinaryFileSync := fun _ => Normal false;
     readFileSync := fun _ => Normal bytes;
     chardet_detect := fun _ => label;
     iconv_decode := fun buffer _ => Normal (bytes_as_text buffer);
     toString_base64 := fun _ => [] |}.

(** A file system in which the file has vanished. *)
Definition vanished_io : IO :=
  {| isBinaryFileSync := fun _ => Throw (ErrorObject (lit "ENOENT: no such file or directory"));
     readFileSync := fun _ => Throw (ErrorObject (lit "ENOENT: no such file or directory"));
     chardet_detect := fun _ => None;
     iconv_decode := fun buffer _ => Normal (bytes_as_text buffer);
     toString_base64 := fun _ => [] |}.

Definition some_path : jsstring := lit "/p/root/a.txt".

Definition some_file : CollectedFile :=
  {| path := some_path; type := text; relativePath := lit "a.txt" |}.

(** 501 lines: five hundred times `a` and a line feed, then `a`. *)
Definition lines_501 : list byte :=
  flat_map (fun _ => [x61; x0a]) (seq 0 500) ++ [x61].

Definition lines_501_result : FileContentResult :=
  {| content := bytes_as_text lines_501;
     error := None;
     encoding := Some (lit "utf8") |}.

(** 1000 bytes, 150 of them the control byte 0x01. *)
Definition control_150_of_1000 : list byte :=
  repeat x01 150 ++ repeat x61 850.

(** One line of 301 letters. *)
Definition line_of_301 : list byte := repeat x61 301.

Definition hello : list byte := [x68; x69; x0a; x3c; x62; x3e].   (* "hi\n<b>" *)

(** A stand-in for the collation of the host on the names used below:
    comparison of the code units. *)
Fixpoint codeunit_compare (a b : jsstring) : Z :=
  match a, b with
  | [], [] => 0%Z
  | [], _ :: _ => (-1)%Z
  | _ :: _, [] => 1%Z
  | x :: a', y :: b' =>
      match N.compare x y with
      | Lt => (-1)%Z
      | Gt => 1%Z
      | Eq => codeunit_compare a' b'
      end
  end.

Definition base : jsstring := lit "/p/root".

(** `a.txt` and the directory `b` holding `c.txt`, listed by name. *)
Definition file_before_directory : directory :=
  Listing [(lit "a.txt", File (Normal false));
           (lit "b", Dir (Listing [(lit "c.txt", File (Normal false))]))].

(** The same entries, listed the way the tree sorts them. *)
Definition directory_before_file : directory :=
  Listing [(lit "b", Dir (Listing [(lit "c.txt", File (Normal false))]));
           (lit "a.txt", File (Normal false))].

(** `a.txt` and `z.log`. *)
Definition text_and_log : directory :=
  Listing [(lit "a.txt", File (Normal false)); (lit "z.log", File (Normal false))].

(** A manager that ignores `z.log` and nothing else among the names used
    here, as with the extra pattern `z.log`. *)
Definition ignores_z_log (relativePath : jsstring) : bool :=
  jsstring_eqb relativePath (lit "z.log").

(** A manager none of whose rules matches. *)
Definition ignores_nothing (relativePath : jsstring) : bool := false.




(** A manager that ignores `link` and nothing else among the names used
    here. *)
Definition ignores_link (relativePath : jsstring) : bool :=
  jsstring_eqb relativePath (lit "link").

(** The two bytes `y` and line feed, for which the detector answers
    `UTF-32LE`; decoded as such they are one replacement character. *)
Definition y_newline : list byte := [x79; x0a].

Definition utf32_detected_io : IO :=
  {| isBinaryFileSync := fun _ => Normal false;
     readFileSync := fun _ => Normal y_newline;
     chardet_detect := fun _ => Some (lit "UTF-32LE");
     iconv_decode := fun buffer enc =>
                       if jsstring_eqb enc (lit "UTF-32LE") then Normal [65533%N]
                       else Normal (bytes_as_text buffer);
     toString_base64 := fun _ => [] |}.

End Examples.

(** * Further definitions *)

(** ** htmlToPdf: the directory structure *)

(** `<pre class="directory-tree">${escapedLines.join('\n')}</pre>` *)
Definition _generateDirectoryStructureHTML (treeLines : list jsstring) : jsstring :=
  let escapedLines := map HTMLToPDFGenerator._escapeHTML treeLines in
  HTMLToPDFGenerator.open_tag "pre" "directory-tree"
    ++ join_newline escapedLines ++ lit "</pre>".

(** ** fontManager *)

Module FontManager.

Record FontPaths := { regular : jsstring; bold : jsstring }.

(** The host: which paths exist, the platform, and what a command prints
    (`execSync(command).toString()`) or throws. *)
Record Host := {
  existsSync : jsstring -> bool;
  platform : jsstring;
  execSync : jsstring -> completion jsstring
}.

(** `!s` for a string. *)
Definition is_empty (s : jsstring) : bool :=
  match s with
  | [] => true
  | _ :: _ => false
  end.

(** The white space and line terminators that `trim` removes. *)
Definition is_space (c : N) : bool :=
  ((N.leb 9 c && N.leb c 13) || N.eqb c 32 || N.eqb c 160 || N.eqb c 5760
   || (N.leb 8192 c && N.leb c 8202) || N.eqb c 8232 || N.eqb c 8233
   || N.eqb c 8239 || N.eqb c 8287 || N.eqb c 12288 || N.eqb c 65279)%bool.

Fixpoint drop_spaces (s : jsstring) : jsstring :=
  match s with
  | [] => []
  | c :: rest => if is_space c then drop_spaces rest else s
  end.

(** `s.trim()` *)
Definition trim (s : jsstring) : jsstring :=
  rev (drop_spaces (rev (drop_spaces s))).

(** `for (const font of fonts) { if (fs.existsSync(font)) { ...; break; } }`:
    the first candidate that exists. *)
Fixpoint first_existing (h : Host) (fonts : list jsstring) : option jsstring :=
  match fonts with
  | [] => None
  | font :: rest => if existsSync h font then Some font else first_existing h rest
  end.

Definition hiragino : jsstring := [12498; 12521; 12462; 12494]%N.          (* ヒラギノ *)
Definition kaku_gothic : jsstring := [35282; 12468; 12471; 12483; 12463]%N. (* 角ゴシック *)
Definition mincho : jsstring := [26126; 26397]%N.                          (* 明朝 *)

Definition macFonts_regular : list jsstring :=
  [lit "/System/Library/Fonts/" ++ hiragino ++ kaku_gothic ++ lit " W3.ttc";
   lit "/Library/Fonts/Arial Unicode.ttf";
   lit "/System/Library/Fonts/AppleGothic.ttf";
   lit "/Library/Fonts/NotoSansCJKjp-Regular.otf";
   lit "/System/Library/Fonts/AppleSDGothicNeo.ttc";
   lit "/Library/Fonts/" ++ hiragino ++ mincho ++ lit " ProN W3.ttc";
   lit "/System/Library/Fonts/PingFang.ttc"].

Definition macFonts_bold : list jsstring :=
  [lit "/System/Library/Fonts/" ++ hiragino ++ kaku_gothic ++ lit " W6.ttc";
   lit "/Library/Fonts/NotoSansCJKjp-Bold.otf";
   lit "/System/Library/Fonts/" ++ hiragino ++ kaku_gothic ++ lit " W6.ttc";
   lit "/Library/Fonts/" ++ hiragino ++ mincho ++ lit " ProN W6.ttc"].

Definition winFonts_regular : list jsstring :=
  map lit ["C:\Windows\Fonts\msgothic.ttc"; "C:\Windows\Fonts\YuGothR.ttc";
           "C:\Windows\Fonts\meiryo.ttc"; "C:\Windows\Fonts\msmincho.ttc";
           "C:\Windows\Fonts\yugothic.ttf"; "C:\Windows\Fonts\meiryou.ttc"]%string.

Definition winFonts_bold : list jsstring :=
  map lit ["C:\Windows\Fonts\YuGothB.ttc"; "C:\Windows\Fonts\meiryob.ttc";
           "C:\Windows\Fonts\msgothic.ttc"]%string.

Definition linuxFonts_regular : list jsstring :=
  map lit ["/usr/share/fonts/truetype/noto/NotoSansCJK-Regular.ttc";
           "/usr/share/fonts/opentype/noto/NotoSansCJK-Regular.ttc";
           "/usr/share/fonts/truetype/fonts-japanese-gothic.ttf";
           "/usr/share/fonts/opentype/ipaexfont-gothic/ipaexg.ttf";
           "/usr/share/fonts/noto-cjk/NotoSansCJK-Regular.ttc";
           "/usr/share/fonts/google-noto/NotoSansCJK-Regular.ttc";
           "/usr/share/fonts/noto/NotoSansCJK-Regular.ttc"]%string.

Definition linuxFonts_bold : list jsstring :=
  map lit ["/usr/share/fonts/truetype/noto/NotoSansCJK-Bold.ttc";
           "/usr/share/fonts/opentype/noto/NotoSansCJK-Bold.ttc";
           "/usr/share/fonts/opentype/ipaexfont-gothic/ipaexg.ttf";
           "/usr/share/fonts/noto-cjk/NotoSansCJK-Bold.ttc";
           "/usr/share/fonts/google-noto/NotoSansCJK-Bold.ttc";
           "/usr/share/fonts/noto/NotoSansCJK-Bold.ttc"]%string.

(** The two commands, each holding a line feed inside its format. *)
Definition fc_list_command : jsstring :=
  lit "fc-list :lang=ja -f " ++ dq ++ lit "%{file}" ++ [10%N] ++ dq.

Definition fc_list_bold_command : jsstring :=
  lit "fc-list :lang=ja:weight=bold -f " ++ dq ++ lit "%{file}" ++ [10%N] ++ dq.

(** The two loops over the candidates of a platform. *)
Definition pick_candidates (h : Host) (regulars bolds : list jsstring)
    (fontPaths : FontPaths) : FontPaths :=
  let fontPaths :=
    match first_existing h regulars with
    | Some font => {| regular := font; bold := bold fontPaths |}
    | None => fontPaths
    end in
  match first_existing h bolds with
  | Some font => {| regular := regular fontPaths; bold := font |}
  | None => fontPaths
  end.

(** `if (!fontPaths.bold && fontPaths.regular) fontPaths.bold = fontPaths.regular` *)
Definition bold_from_regular (fontPaths : FontPaths) : FontPaths :=
  if (is_empty (bold fontPaths) && negb (is_empty (regular fontPaths)))%bool
  then {| regular := regular fontPaths; bold := regular fontPaths |}
  else fontPaths.

Definition _findFontsByFcList (h : Host) (fontPaths : FontPaths) : FontPaths :=
  match execSync h fc_list_command with
  | Throw _ => fontPaths
  | Normal output =>
      let fclistOutput := trim output in
      if (negb (is_empty fclistOutput) && Nat.ltb 0 (length fclistOutput))%bool then
        let fonts := split_newline fclistOutput in
        if Nat.ltb 0 (length fonts) then
          let fontPaths := {| regular := nth 0 fonts []; bold := bold fontPaths |} in
          match execSync h fc_list_bold_command with
          | Throw _ => {| regular := regular fontPaths; bold := regular fontPaths |}
          | Normal boldOutput =>
              let fclistBoldOutput := trim boldOutput in
              if (negb (is_empty fclistBoldOutput)
                  && Nat.ltb 0 (length fclistBoldOutput))%bool then
                let boldFonts := split_newline fclistBoldOutput in
                if Nat.ltb 0 (length boldFonts)
                then {| regular := regular fontPaths; bold := nth 0 boldFonts [] |}
                else fontPaths
              else fontPaths
          end
        else fontPaths
      else fontPaths
  end.

Definition _findMacOSFonts (h : Host) (fontPaths : FontPaths) : FontPaths :=
  let fontPaths := pick_candidates h macFonts_regular macFonts_bold fontPaths in
  let fontPaths := if is_empty (regular fontPaths)
                   then _findFontsByFcList h fontPaths else fontPaths in
  bold_from_regular fontPaths.

Definition _findWindowsFonts (h : Host) (fontPaths : FontPaths) : FontPaths :=
  let fontPaths := pick_candidates h winFonts_regular winFonts_bold fontPaths in
  bold_from_regular fontPaths.

Definition _findLinuxFonts (h : Host) (fontPaths : FontPaths) : FontPaths :=
  let fontPaths := pick_candidates h linuxFonts_regular linuxFonts_bold fontPaths in
  let fontPaths := if is_empty (regular fontPaths)
                   then _findFontsByFcList h fontPaths else fontPaths in
  bold_from_regular fontPaths.

(** `findJapaneseFonts()`; [customFontPath] is the optional field of the
    manager.  Nothing in the `try` block throws: `existsSync` does not, and
    `_findFontsByFcList` catches what `execSync` throws. *)
Definition findJapaneseFonts (h : Host) (customFontPath : option jsstring) : FontPaths :=
  let fontPaths := {| regular := []; bold := [] |} in
  if (truthy customFontPath && existsSync h (or_default customFontPath []))%bool then
    {| regular := or_default customFontPath []; bold := or_default customFontPath [] |}
  else
    let fontPaths :=
      if jsstring_eqb (platform h) (lit "darwin") then _findMacOSFonts h fontPaths
      else if jsstring_eqb (platform h) (lit "win32") then _findWindowsFonts h fontPaths
      else if jsstring_eqb (platform h) (lit "linux") then _findLinuxFonts h fontPaths
      else fontPaths in
    if is_empty (regular fontPaths)
    then {| regular := lit "Courier"; bold := lit "Helvetica-Bold" |}
    else fontPaths.

(** The regular candidates of a platform. *)
Definition regular_candidates (platform : jsstring) : list jsstring :=
  if jsstring_eqb platform (lit "darwin") then macFonts_regular
  else if jsstring_eqb platform (lit "win32") then winFonts_regular
  else if jsstring_eqb platform (lit "linux") then linuxFonts_regular
  else [].

End FontManager.

(** ** wkhtmlToPdf *)

Module WkHTMLToPDFGenerator.
Import FileContentReader.

Definition _escapeHTML (text : jsstring) : jsstring :=
  replace_char 39 (lit "&#039;")
    (replace_char 34 (lit "&quot;")
       (replace_char 62 (lit "&gt;")
          (replace_char 60 (lit "&lt;")
             (replace_char 38 (lit "&amp;") text)))).

(** `<tag class="cls">` *)
Definition open_tag (tag cls : string) : jsstring :=
  lit "<" ++ lit tag ++ lit " class=" ++ dq ++ lit cls ++ dq ++ lit ">".

Definition maxLines : nat := 500.
Definition maxLineLength : nat := 300.

(** The body of the loop over the displayed lines. *)
Fixpoint for_lines (todo i : nat) (displayLines : list jsstring) (html : jsstring)
  : jsstring :=
  match todo with
  | 0 => html
  | S todo' =>
      let lineNumber := i + 1 in
      let line := nth i displayLines [] in
      let displayLine := if Nat.ltb maxLineLength (length line)
                         then firstn maxLineLength line ++ lit "..."
                         else line in
      for_lines todo' (S i) displayLines
        (html ++ open_tag "span" "file-content-line"
              ++ open_tag "span" "line-number" ++ number_to_string lineNumber
              ++ lit "</span>" ++ _escapeHTML displayLine ++ lit "</span>" ++ [10%N])
  end.

Definition _generateTextFileHTML (io : IO) (file : CollectedFile)
  : completion jsstring :=
  r <- getFileContent io (path file) ;;
  if truthy (error r) then
    Normal (open_tag "p" "binary-notice" ++ _escapeHTML (or_default (error r) [])
              ++ lit "</p>")
  else
    let html := if truthy (encoding r)
                then open_tag "div" "encoding-info" ++ lit "Encoding: "
                       ++ or_default (encoding r) [] ++ lit "</div>"
                else [] in
    let contentLines := split_newline (content r) in
    let displayLines := if Nat.ltb maxLines (length contentLines)
                        then firstn maxLines contentLines
                        else contentLines in
    let html := html ++ lit "<pre>" in
    let html := for_lines (length displayLines) 0 displayLines html in
    let html := if Nat.ltb maxLines (length contentLines)
                then html ++ [10%N; 10%N] ++ lit "... ("
                          ++ number_to_string (length contentLines - maxLines)
                          ++ lit " more lines)"
                else html in
    Normal (html ++ lit "</pre>").

(** The image is referred to by its path; the file is not read. *)
Definition _generateImageHTML (file : CollectedFile) : jsstring :=
  let imagePath := replace_char 92 [47%N] (path file) in
  (10%N :: repeat 32%N 6) ++ open_tag "div" "image-container"
    ++ (10%N :: repeat 32%N 8) ++ lit "<p>Image file: "
    ++ _escapeHTML (Path.basename (path file)) ++ lit "</p>"
    ++ (10%N :: repeat 32%N 8) ++ lit "<img src=" ++ dq ++ lit "file:///" ++ imagePath ++ dq
    ++ lit " alt=" ++ dq ++ _escapeHTML (Path.basename (path file)) ++ dq ++ lit " />"
    ++ (10%N :: repeat 32%N 6) ++ lit "</div>"
    ++ (10%N :: repeat 32%N 4).

(** `for (const file of files) { html += ... }` *)
Fixpoint _generateFileContentsHTML_from (io : IO) (files : list CollectedFile)
    (html : jsstring) : completion jsstring :=
  match files with
  | [] => Normal html
  | file :: rest =>
      let html := html ++ open_tag "div" "file-path" ++ lit "/"
                       ++ _escapeHTML (relativePath file) ++ lit ":</div>" in
      section <- match type file with
                 | image => Normal (_generateImageHTML file)
                 | binary => Normal (open_tag "p" "binary-notice"
                                       ++ lit "Binary file (content not displayed)"
                                       ++ lit "</p>")
                 | text => _generateTextFileHTML io file
                 end ;;
      _generateFileContentsHTML_from io rest (html ++ section)
  end.

Definition _generateFileContentsHTML (io : IO) (files : list CollectedFile)
  : completion jsstring :=
  _generateFileContentsHTML_from io files [].

End WkHTMLToPDFGenerator.

(** ** fileContentReader: the diagnosis *)

Module FileContentDiagnosis.
Import FileContentReader.

(** A double that is zero or lies between [2^-53] and [1]:
    [mantissa / 2^scale]. *)
Record double := { mantissa : Z; scale : Z }.

Definition zero : double := {| mantissa := 0; scale := 0 |}.

(** `count / total` for integers with [0 <= count <= total] and [0 < total]:
    the double nearest to the quotient, ties to even.  The scale is chosen so
    that the quotient has 53 bits, of which the last is rounded. *)
Definition divide (count total : Z) : double :=
  let k0 := (52 + Z.log2 total - Z.log2 count)%Z in
  let k := if (count * 2 ^ k0 <? total * 2 ^ 52)%Z then (k0 + 1)%Z else k0 in
  let q := (count * 2 ^ k / total)%Z in
  let r := ((count * 2 ^ k) mod total)%Z in
  let up := ((total <? 2 * r)%Z || ((total =? 2 * r)%Z && Z.odd q))%bool in
  {| mantissa := if up then (q + 1)%Z else q; scale := k |}.

(** `d > 0.1`, `d === 0` and `d <= 1` *)
Definition exceeds_tenth_double (d : double) : bool :=
  (tenth_55 * 2 ^ scale d <? mantissa d * 2 ^ 55)%Z.

Definition is_zero (d : double) : bool := (mantissa d =? 0)%Z.

Definition at_most_one (d : double) : bool := (mantissa d <=? 2 ^ scale d)%Z.

Record Diagnosis := { ratio : double; count : nat; total : nat }.

Definition diagnoseControlCharacters (content : jsstring) : Diagnosis :=
  let controlChars := match_control content in
  let count := match controlChars with
               | Some controlChars => length controlChars
               | None => 0
               end in
  let total := length content in
  let ratio := if Nat.ltb 0 total
               then divide (Z.of_nat count) (Z.of_nat total)
               else zero in
  {| ratio := ratio; count := count; total := total |}.

End FileContentDiagnosis.

Module MoreExamples.

(** A directory `locked` that cannot be listed, beside `a.txt`. *)
Definition with_locked : directory :=
  Listing [(lit "a.txt", File (Normal false));
           (lit "locked", Dir (Unreadable (ErrorObject (lit "EACCES: permission denied"))))].

(** The files read as with [Examples.text_file_io Examples.hello], but the
    probe, the detector and the decoder all behave differently. *)
Definition other_reader_io : FileContentReader.IO :=
  {| FileContentReader.isBinaryFileSync := fun _ => Throw (OtherValue (lit "probe failed"));
     FileContentReader.readFileSync := fun _ => Normal Examples.hello;
     FileContentReader.chardet_detect := fun _ => Some (lit "Shift_JIS");
     FileContentReader.iconv_decode :=
       fun _ _ => Throw (ErrorObject (lit "Encoding not recognized"));
     FileContentReader.toString_base64 := fun _ => [] |}.

(** An image and a binary file. *)
Definition logo : CollectedFile :=
  {| path := lit "/p/root/logo.PNG"; type := image; relativePath := lit "logo.PNG" |}.

Definition blob : CollectedFile :=
  {| path := lit "/p/root/blob.bin"; type := binary; relativePath := lit "blob.bin" |}.

(** A Linux host with the IPA font only, where `fc-list` is missing. *)
Definition ipa_only : FontManager.Host :=
  {| FontManager.existsSync :=
       fun p => jsstring_eqb p (lit "/usr/share/fonts/opentype/ipaexfont-gothic/ipaexg.ttf");
     FontManager.platform := lit "linux";
     FontManager.execSync := fun _ => Throw (ErrorObject (lit "Command failed: fc-list")) |}.

(** The same host with an `fc-list` that answers. *)
Definition ipa_with_fc_list : FontManager.Host :=
  {| FontManager.existsSync :=
       fun p => jsstring_eqb p (lit "/usr/share/fonts/opentype/ipaexfont-gothic/ipaexg.ttf");
     FontManager.platform := lit "linux";
     FontManager.execSync := fun _ => Normal (lit "/opt/fonts/other.ttf") |}.

End MoreExamples.

(** * Properties *)

(** ** Reading a file *)

Section ReaderFacts.
Import FileContentReader.
Variable io : IO.
Variable filePath : jsstring.

(** The label shown for a file is never the empty string. *)
Lemma or_default_utf8_truthy (detected : option jsstring) :
  truthy (Some (or_default detected (lit "utf8"))) = true.
Proof.
  destruct detected as [[|c s]|]; reflexivity.
Qed.

Lemma getFileContent_shape :
  exists r, getFileContent io filePath = Normal r /\ result_shape r.
Proof.
  unfold getFileContent, getFileContent_try, try_catch, bind.
  destruct (isBinaryFileSync io filePath) as [[|]|e].
  - eexists; split; [reflexivity | constructor].
  - destruct (readFileSync io filePath) as [buffer|e].
    + destruct (iconv_decode io buffer _) as [decoded|e].
      * destruct (too_many_control (strip_bom decoded));
          eexists; split; try reflexivity; constructor.
      * eexists; split; [reflexivity | constructor].
    + eexists; split; [reflexivity | constructor].
  - eexists; split; [reflexivity | constructor].
Qed.

(** A result with an error carries no content. *)
Lemma result_shape_error r :
  result_shape r ->
  (truthy (error r) = true /\ content r = []) \/
  (error r = None /\ truthy (encoding r) = true).
Proof.
  destruct 1; cbn [error content encoding].
  - left; split; reflexivity.
  - left; split; reflexivity.
  - left; split; reflexivity.
  - right; split; [reflexivity | apply or_default_utf8_truthy].
Qed.

End ReaderFacts.

(** ** Rendering a text file *)

Section RenderFacts.
Import FileContentReader HTMLToPDFGenerator.

(** The loop appends the lines it has not yet visited, numbered from one
    more than the index it stands at. *)
Lemma for_lines_from (done todo : list jsstring) (html : jsstring) :
  for_lines (length todo) (length done) (done ++ todo) html =
  html ++ numbered_lines (length done + 1) todo.
Proof.
  revert done html.
  induction todo as [|l todo IH]; intros done html.
  - cbn. now rewrite app_nil_r.
  - cbn [length for_lines numbered_lines].
    rewrite nth_middle.
    specialize (IH (done ++ [l]) (html ++ line_span (length done + 1) l)).
    rewrite length_app, <- !app_assoc in IH.
    cbn [length app] in IH.
    rewrite !Nat.add_1_r in *.
    exact IH.
Qed.

Lemma for_lines_all (ls : list jsstring) (html : jsstring) :
  for_lines (length ls) 0 ls html = html ++ numbered_lines 1 ls.
Proof.
  apply (for_lines_from [] ls html).
Qed.

Lemma split_newline_nonempty (s : jsstring) : split_newline s <> [].
Proof.
  destruct s as [|c r]; cbn; [discriminate|].
  destruct (N.eqb c 10); [discriminate|].
  destruct (split_newline r); discriminate.
Qed.

Lemma encoding_header_eq r :
  (if truthy (encoding r) then encoding_info (or_default (encoding r) []) else [])
  = encoding_header r.
Proof.
  unfold encoding_header.
  destruct (encoding r) as [[|c s]|]; reflexivity.
Qed.

Lemma replace_char_flat_map (c : N) (by_ : jsstring) (f : N -> jsstring) (s : jsstring) :
  replace_char c by_ (flat_map f s) = flat_map (fun x => replace_char c by_ (f x)) s.
Proof.
  unfold replace_char. induction s as [|x s IH]; [reflexivity|].
  cbn [flat_map]. rewrite flat_map_app. now rewrite IH.
Qed.

(** The five replacements in a row escape each character on its own: `&` is
    replaced first, so no entity is escaped twice. *)
Lemma escapeHTML_chars (s : jsstring) : _escapeHTML s = flat_map escape_char s.
Proof.
  unfold _escapeHTML.
  unfold replace_char at 5.
  rewrite !replace_char_flat_map.
  apply flat_map_ext. intros c.
  unfold escape_char.
  destruct (N.eqb_spec c 38) as [->|H38]; [reflexivity|].
  destruct (N.eqb_spec c 60) as [->|H60]; [reflexivity|].
  destruct (N.eqb_spec c 62) as [->|H62]; [reflexivity|].
  destruct (N.eqb_spec c 34) as [->|H34]; [reflexivity|].
  destruct (N.eqb_spec c 39) as [->|H39]; [reflexivity|].
  unfold replace_char. cbn [flat_map app].
  repeat match goal with
  | |- context [N.eqb c ?k] =>
      destruct (N.eqb_spec c k); [congruence|]; cbn [flat_map app]
  end.
  reflexivity.
Qed.

(** The pieces of a text section are the texts written out in the
    statements. *)
Lemma line_span_rendered (lineNumber : nat) (line : jsstring) :
  line_span lineNumber line = rendered_line lineNumber line.
Proof.
  unfold line_span, rendered_line, displayLine, maxLineLength.
  rewrite escapeHTML_chars. reflexivity.
Qed.

Lemma numbered_lines_rendered (ls : list jsstring) :
  forall start, numbered_lines start ls = rendered_lines start ls.
Proof.
  induction ls as [|l ls IH]; intros start; [reflexivity|].
  cbn [numbered_lines rendered_lines].
  now rewrite line_span_rendered, IH.
Qed.

Lemma notice_rendered (message : jsstring) : notice message = rendered_notice message.
Proof.
  unfold notice, rendered_notice. rewrite escapeHTML_chars. reflexivity.
Qed.

(** What `_generateTextFileHTML` returns once the reader's result is
    known. *)
Lemma generateTextFileHTML_unfold io file r :
  getFileContent io (path file) = Normal r ->
  _generateTextFileHTML io file =
  Normal
    (if truthy (error r) then notice (or_default (error r) [])
     else
       let contentLines := split_newline (content r) in
       if Nat.ltb maxLines (length contentLines)
       then encoding_header r ++ lit "<pre>"
              ++ numbered_lines 1 (firstn maxLines contentLines)
              ++ omission_marker (length contentLines - maxLines) ++ lit "</pre>"
       else encoding_header r ++ lit "<pre>"
              ++ numbered_lines 1 contentLines ++ lit "</pre>").
Proof.
  intros Hr.
  unfold _generateTextFileHTML.
  rewrite Hr.
  cbn [bind].
  destruct (truthy (error r)); [reflexivity|].
  rewrite encoding_header_eq.
  cbv zeta.
  destruct (Nat.ltb maxLines (length (split_newline (content r))));
    rewrite for_lines_all; f_equal;
    repeat rewrite <- app_assoc; reflexivity.
Qed.

End RenderFacts.

(** ** The line cap *)

Section LineCap.
Import FileContentReader HTMLToPDFGenerator.

(** C1.  Let the reader return [r] for a file and let its content split
    into [n] lines.  If [n] exceeds 500, the section is the encoding header
    and a `<pre>` block made of the first 500 lines and no other, each with
    its number from 1 to 500, followed by two line feeds and the marker
    `... (k more lines)` in which [k] is [n - 500].  If [n] is at most 500
    the section carries no marker: it is the error notice, or the header and
    the block of all [n] numbered lines.  All texts are written out. *)
Theorem generateTextFileHTML_line_cap io file r :
  getFileContent io (path file) = Normal r ->
  let contentLines := split_newline (content r) in
  let n := length contentLines in
  (500 < n ->
     _generateTextFileHTML io file =
       Normal (rendered_header r ++ lit "<pre>"
                 ++ rendered_lines 1 (firstn 500 contentLines)
                 ++ [10%N; 10%N] ++ lit "... (" ++ number_to_string (n - 500)
                 ++ lit " more lines)" ++ lit "</pre>")
     /\ length (firstn 500 contentLines) = 500)
  /\ (n <= 500 ->
        _generateTextFileHTML io file =
          Normal (if truthy (error r)
                  then rendered_notice (or_default (error r) [])
                  else rendered_header r ++ lit "<pre>"
                         ++ rendered_lines 1 contentLines ++ lit "</pre>")).
Proof.
  intros Hr contentLines n.
  pose proof (generateTextFileHTML_unfold io file Hr) as Hhtml.
  destruct (getFileContent_shape io (path file)) as [r' [Hr' Hshape]].
  assert (r' = r) by congruence; subst r'.
  apply result_shape_error in Hshape.
  cbv zeta in Hhtml.
  fold contentLines in Hhtml. fold n in Hhtml.
  rewrite !numbered_lines_rendered, notice_rendered in Hhtml.
  change (encoding_header r) with (rendered_header r) in Hhtml.
  change maxLines with 500 in Hhtml.
  split.
  - intros Hn.
    assert (Herr : truthy (error r) = false).
    { destruct Hshape as [[_ Hempty] | [Hnone _]].
      - exfalso. subst n contentLines. rewrite Hempty in Hn.
        cbn [split_newline length] in Hn. lia.
      - now rewrite Hnone. }
    rewrite Herr in Hhtml.
    apply Nat.ltb_lt in Hn as Hb. rewrite Hb in Hhtml.
    split; [|apply firstn_length_le; subst n; lia].
    rewrite Hhtml. unfold omission_marker.
    repeat rewrite <- app_assoc. reflexivity.
  - intros Hn.
    assert (Hb : Nat.ltb 500 n = false) by (apply Nat.ltb_ge; exact Hn).
    rewrite Hb in Hhtml.
    destruct (truthy (error r)); exact Hhtml.
Qed.

Lemma generateTextFileHTML_line_cap_witness :
  _generateTextFileHTML (Examples.text_file_io Examples.lines_501 None) Examples.some_file =
  Normal (rendered_header Examples.lines_501_result ++ lit "<pre>"
            ++ rendered_lines 1
                 (firstn 500 (split_newline (content Examples.lines_501_result)))
            ++ [10%N; 10%N] ++ lit "... (" ++ number_to_string 1
            ++ lit " more lines)" ++ lit "</pre>").
Proof.
  assert (Hr : getFileContent (Examples.text_file_io Examples.lines_501 None)
                 (path Examples.some_file) = Normal Examples.lines_501_result)
    by (vm_compute; reflexivity).
  assert (Hlen : length (split_newline (content Examples.lines_501_result)) = 501)
    by (vm_compute; reflexivity).
  destruct (generateTextFileHTML_line_cap _ _ Hr) as [H _].
  cbv zeta in H. rewrite Hlen in H.
  destruct (H ltac:(lia)) as [Hhtml _].
  exact Hhtml.
Defined.

End LineCap.

(** ** The control-character screen *)

Section ControlScreen.
Import FileContentReader HTMLToPDFGenerator.

(** The double product keeps the 53 leading bits: it is never below a
    multiple of [2^55] that the exact product reaches, and exceeds the exact
    product by at most one part in [2^53]. *)
Lemma round_55_bounds (num : Z) :
  (0 <= num < 2 ^ 85)%Z ->
  (forall z, 0 <= z -> z * 2 ^ 55 <= num -> z * 2 ^ 55 <= round_55 num)%Z
  /\ (round_55 num * 2 ^ 53 <= num * (2 ^ 53 + 1))%Z.
Proof.
  intros [Hnum Hsmall].
  unfold round_55.
  destruct (Z.leb_spec (Z.log2 num - 52) 0) as [Hs|Hs].
  - split; [intros; assumption | lia].
  - set (s := (Z.log2 num - 52)%Z) in *.
    assert (Hpos : (0 < num)%Z)
      by (destruct (Z.eq_dec num 0) as [->|]; [cbn in Hs; lia | lia]).
    assert (Hlog : (Z.log2 num < 85)%Z) by (apply Z.log2_lt_pow2; lia).
    pose proof (Z.log2_spec num Hpos) as [Hlow _].
    replace (Z.log2 num) with (s + 52)%Z in Hlow by (unfold s; lia).
    rewrite Z.pow_add_r in Hlow by lia.
    assert (HT : (0 < 2 ^ s)%Z) by (apply Z.pow_pos_nonneg; lia).
    assert (H55 : (2 ^ 55 = 2 ^ s * 2 ^ (55 - s))%Z).
    { rewrite <- Z.pow_add_r by lia. f_equal. lia. }
    assert (HU : (0 < 2 ^ (55 - s))%Z) by (apply Z.pow_pos_nonneg; lia).
    pose proof (Z.div_mod num (2 ^ s) ltac:(lia)) as Hdm.
    pose proof (Z.mod_pos_bound num (2 ^ s) HT) as Hr.
    set (T := (2 ^ s)%Z) in *.
    set (q := (num / T)%Z) in *.
    set (r := (num mod T)%Z) in *.
    assert (Hq : forall z, (0 <= z -> z * 2 ^ 55 <= num -> z * 2 ^ 55 <= q * T)%Z).
    { intros z Hz Hle.
      rewrite H55.
      replace (z * (T * 2 ^ (55 - s)))%Z with ((z * 2 ^ (55 - s)) * T)%Z by ring.
      apply Z.mul_le_mono_nonneg_r; [lia|].
      apply Z.div_le_lower_bound; [lia|].
      rewrite H55 in Hle. lia. }
    assert (Hcut : ((T <? 2 * r)%Z || ((T =? 2 * r)%Z && Z.odd q))%bool = true ->
                   (T <= 2 * r)%Z).
    { intros H. apply orb_true_iff in H as [H|H].
      - apply Z.ltb_lt in H. lia.
      - apply andb_true_iff in H as [H _]. apply Z.eqb_eq in H. lia. }
    split.
    + intros z Hz Hle. specialize (Hq z Hz Hle).
      destruct ((T <? 2 * r)%Z || ((T =? 2 * r)%Z && Z.odd q))%bool; lia.
    + destruct ((T <? 2 * r)%Z || ((T =? 2 * r)%Z && Z.odd q))%bool.
      * specialize (Hcut eq_refl).
        replace ((q + 1) * T)%Z with (T * q + T)%Z by ring.
        change (2 ^ 52)%Z with 4503599627370496%Z in Hlow.
        change (2 ^ 53)%Z with 9007199254740992%Z.
        lia.
      * replace (q * T)%Z with (T * q)%Z by ring.
        change (2 ^ 53)%Z with 9007199254740992%Z. lia.
Qed.

(** On the lengths a string can have, the test on doubles is the test on
    integers. *)
Lemma exceeds_tenth_spec (count total : nat) :
  (Z.of_nat total < 2 ^ 30)%Z ->
  exceeds_tenth count total = Nat.ltb total (10 * count).
Proof.
  intros Hbound.
  unfold exceeds_tenth.
  set (n := Z.of_nat total) in *.
  set (k := Z.of_nat count).
  assert (Hn : (0 <= n)%Z) by (unfold n; lia).
  assert (Hk : (0 <= k)%Z) by (unfold k; lia).
  assert (Hnum : (0 <= n * tenth_55 < 2 ^ 85)%Z).
  { unfold tenth_55. change (2 ^ 30)%Z with 1073741824%Z in Hbound.
    change (2 ^ 85)%Z with 38685626227668133590597632%Z. lia. }
  destruct (round_55_bounds Hnum) as [Hlow Hhigh].
  specialize (Hlow k Hk).
  change (2 ^ 30)%Z with 1073741824%Z in Hbound.
  change (2 ^ 53)%Z with 9007199254740992%Z in Hhigh.
  change (2 ^ 55)%Z with 36028797018963968%Z in *.
  unfold tenth_55 in *.
  destruct (Nat.ltb_spec total (10 * count)) as [Hlt|Hge].
  - apply Z.ltb_lt.
    assert (n + 1 <= 10 * k)%Z by (unfold n, k; lia).
    lia.
  - apply Z.ltb_ge.
    apply Hlow.
    assert (10 * k <= n)%Z by (unfold n, k; lia).
    lia.
Qed.

Lemma too_many_control_count (s : jsstring) :
  (Z.of_nat (length s) < 2 ^ 30)%Z ->
  too_many_control s = Nat.ltb (length s) (10 * length (filter is_control s)).
Proof.
  intros Hbound.
  unfold too_many_control, match_control.
  destruct (filter is_control s) as [|c cs].
  - cbn [length]. symmetry. apply Nat.ltb_ge. lia.
  - now apply exceeds_tenth_spec.
Qed.

Lemma too_many_control_none (s : jsstring) :
  filter is_control s = [] -> too_many_control s = false.
Proof.
  intros H. unfold too_many_control, match_control. now rewrite H.
Qed.

(** What the reader returns for a file that is not binary and that reads
    and decodes without an exception. *)
Lemma getFileContent_decoded io filePath buffer decoded :
  isBinaryFileSync io filePath = Normal false ->
  readFileSync io filePath = Normal buffer ->
  iconv_decode io buffer (or_default (chardet_detect io buffer) (lit "utf8"))
    = Normal decoded ->
  getFileContent io filePath =
  Normal (if too_many_control (strip_bom decoded)
          then {| content := [];
                  error := Some (lit "File contains control characters (content not displayed)");
                  encoding := Some (or_default (chardet_detect io buffer) (lit "utf8")) |}
          else {| content := strip_bom decoded;
                  error := None;
                  encoding := Some (or_default (chardet_detect io buffer) (lit "utf8")) |}).
Proof.
  intros Hbin Hread Hdec.
  unfold getFileContent, getFileContent_try.
  rewrite Hbin. cbn [bind].
  rewrite Hread. cbn [bind].
  rewrite Hdec. cbn [bind].
  destruct (too_many_control _); reflexivity.
Qed.

(** C2.  For a file that is read and decoded, let [count] be the number of
    characters of the decoded text (byte-order mark removed) in U+0000 to
    U+0008, U+000E to U+001F and U+007F to U+009F.  If [count] is strictly
    more than a tenth of the length, the reader returns the control
    characters error with empty content and the encoding label; otherwise
    it returns the decoded text.  The text has a length that a string of the
    engine can have. *)
Theorem getFileContent_control_screen io filePath buffer decoded :
  isBinaryFileSync io filePath = Normal false ->
  readFileSync io filePath = Normal buffer ->
  iconv_decode io buffer (or_default (chardet_detect io buffer) (lit "utf8"))
    = Normal decoded ->
  (Z.of_nat (length (strip_bom decoded)) < 2 ^ 30)%Z ->
  let shown := strip_bom decoded in
  let count := length (filter is_control shown) in
  let label := or_default (chardet_detect io buffer) (lit "utf8") in
  (length shown < 10 * count ->
     getFileContent io filePath =
     Normal {| content := [];
               error := Some (lit "File contains control characters (content not displayed)");
               encoding := Some label |})
  /\ (10 * count <= length shown ->
        getFileContent io filePath =
        Normal {| content := shown; error := None; encoding := Some label |}).
Proof.
  intros Hbin Hread Hdec Hbound shown count label.
  rewrite (getFileContent_decoded _ _ Hbin Hread Hdec).
  rewrite (too_many_control_count _ Hbound).
  fold shown. fold count. fold label.
  split; intros H.
  - apply Nat.ltb_lt in H. now rewrite H.
  - apply Nat.ltb_ge in H. now rewrite H.
Qed.

Lemma getFileContent_control_screen_witness :
  getFileContent (Examples.text_file_io Examples.control_150_of_1000 None)
    Examples.some_path =
  Normal {| content := [];
            error := Some (lit "File contains control characters (content not displayed)");
            encoding := Some (lit "utf8") |}.
Proof.
  refine (proj1 (@getFileContent_control_screen
                   (Examples.text_file_io Examples.control_150_of_1000 None)
                   Examples.some_path Examples.control_150_of_1000
                   (bytes_as_text Examples.control_150_of_1000)
                   eq_refl eq_refl eq_refl _) _).
  - vm_compute. reflexivity.
  - apply Nat.ltb_lt. vm_compute. reflexivity.
Defined.

End ControlScreen.

(** ** Exceptions while reading *)

Section ReadErrors.
Import FileContentReader HTMLToPDFGenerator.

Lemma truthy_reading_error (e : thrown) :
  truthy (Some (lit "Reading error: " ++ thrown_text e)) = true.
Proof.
  reflexivity.
Qed.

Lemma generateTextFileHTML_total io file :
  exists html, _generateTextFileHTML io file = Normal html.
Proof.
  destruct (getFileContent_shape io (path file)) as [r [Hr _]].
  rewrite (generateTextFileHTML_unfold _ _ Hr). eexists; reflexivity.
Qed.

Lemma generateImageHTML_total io file :
  exists html, _generateImageHTML io file = Normal html.
Proof.
  unfold _generateImageHTML, try_catch, bind.
  destruct (readFileSync io (path file)); eexists; reflexivity.
Qed.

(** The loop over the collected files runs to its end. *)
Lemma generateFileContentsHTML_from_total io files :
  forall html, exists out, _generateFileContentsHTML_from io files html = Normal out.
Proof.
  induction files as [|file rest IH]; intros html.
  - eexists; reflexivity.
  - cbn [_generateFileContentsHTML_from].
    destruct (type file).
    + destruct (generateTextFileHTML_total io file) as [section ->]. apply IH.
    + destruct (generateImageHTML_total io file) as [section ->]. apply IH.
    + apply IH.
Qed.

(** C6.  The reader returns normally on every path.  Whatever the body of
    its `try` block throws, it returns empty content and the error
    `Reading error: ` followed by the text of the exception, and the
    section built for the file is the notice holding that error; the
    sections of a whole file list are always built to the end. *)
Theorem getFileContent_never_throws io file :
  (exists r, getFileContent io (path file) = Normal r)
  /\ (forall e,
        getFileContent_try io (path file) = Throw e ->
        getFileContent io (path file) =
          Normal {| content := [];
                    error := Some (lit "Reading error: " ++ thrown_text e);
                    encoding := None |}
        /\ _generateTextFileHTML io file =
             Normal (notice (lit "Reading error: " ++ thrown_text e)))
  /\ (forall files, exists html, _generateFileContentsHTML io files = Normal html).
Proof.
  destruct (getFileContent_shape io (path file)) as [r [Hr _]].
  split; [now exists r|].
  split.
  - intros e He.
    assert (Hcatch : getFileContent io (path file) =
                     Normal {| content := [];
                               error := Some (lit "Reading error: " ++ thrown_text e);
                               encoding := None |}).
    { unfold getFileContent. rewrite He. reflexivity. }
    split; [exact Hcatch|].
    rewrite (generateTextFileHTML_unfold _ _ Hcatch).
    cbn [error]. rewrite truthy_reading_error.
    reflexivity.
  - intros files. apply generateFileContentsHTML_from_total.
Qed.

Lemma getFileContent_never_throws_witness :
  _generateTextFileHTML Examples.vanished_io Examples.some_file =
  Normal (notice (lit "Reading error: ENOENT: no such file or directory")).
Proof.
  exact (proj2 (proj1 (proj2 (getFileContent_never_throws
                                Examples.vanished_io Examples.some_file))
                  (ErrorObject (lit "ENOENT: no such file or directory")) eq_refl)).
Defined.

End ReadErrors.

(** ** An empty file *)

Section EmptyFile.
Import FileContentReader HTMLToPDFGenerator.

(** C10, as the code has it.  An empty file that is not binary and that
    reads and decodes without an exception gives a result without error,
    with empty content and with the label the detector reports for the
    empty buffer, `utf8` standing in only when the detector reports none;
    its section is the encoding header and a `<pre>` block of one empty
    line numbered 1. *)
Theorem getFileContent_empty_file io file :
  isBinaryFileSync io (path file) = Normal false ->
  readFileSync io (path file) = Normal [] ->
  iconv_decode io [] (or_default (chardet_detect io []) (lit "utf8")) = Normal [] ->
  let label := or_default (chardet_detect io []) (lit "utf8") in
  getFileContent io (path file) =
    Normal {| content := []; error := None; encoding := Some label |}
  /\ _generateTextFileHTML io file =
       Normal (encoding_info label ++ lit "<pre>" ++ line_span 1 [] ++ lit "</pre>")
  /\ (chardet_detect io [] = None -> label = lit "utf8").
Proof.
  intros Hbin Hread Hdec label.
  assert (Hr : getFileContent io (path file) =
               Normal {| content := []; error := None; encoding := Some label |}).
  { rewrite (getFileContent_decoded _ _ Hbin Hread Hdec).
    now rewrite too_many_control_none. }
  split; [exact Hr|].
  split.
  - rewrite (generateTextFileHTML_unfold _ _ Hr).
    cbn [error content truthy split_newline length].
    replace (Nat.ltb maxLines 1) with false by reflexivity.
    unfold encoding_header. cbn [encoding].
    subst label.
    destruct (chardet_detect io []) as [[|c s]|];
      cbn [or_default numbered_lines]; rewrite ?app_nil_r; reflexivity.
  - intros Hnone. subst label. now rewrite Hnone.
Qed.

Lemma getFileContent_empty_file_witness :
  getFileContent (Examples.text_file_io [] None) Examples.some_path =
    Normal {| content := []; error := None; encoding := Some (lit "utf8") |}.
Proof.
  exact (proj1 (@getFileContent_empty_file (Examples.text_file_io [] None)
                  Examples.some_file eq_refl eq_refl eq_refl)).
Defined.

(** C10 fails as stated: with a detector that names a charset for the empty
    buffer, the label of the empty file is that name and not `utf8`. *)
Lemma empty_file_label_is_detected :
  isBinaryFileSync (Examples.text_file_io [] (Some (lit "UTF-8"))) Examples.some_path
    = Normal false
  /\ readFileSync (Examples.text_file_io [] (Some (lit "UTF-8"))) Examples.some_path
     = Normal []
  /\ getFileContent (Examples.text_file_io [] (Some (lit "UTF-8"))) Examples.some_path
     = Normal {| content := []; error := None; encoding := Some (lit "UTF-8") |}
  /\ Some (lit "UTF-8") <> Some (lit "utf8").
Proof.
  repeat split; discriminate.
Qed.

End EmptyFile.

(** ** Plain ASCII text *)

Section AsciiText.
Import FileContentReader HTMLToPDFGenerator.

Lemma strip_bom_bytes (buffer : list byte) :
  strip_bom (bytes_as_text buffer) = bytes_as_text buffer.
Proof.
  destruct buffer as [|b rest]; [reflexivity|].
  cbn [bytes_as_text map strip_bom].
  pose proof (Byte.to_N_bounded b) as Hb.
  destruct (N.eqb_spec (Byte.to_N b) 65279) as [E|_]; [|reflexivity].
  rewrite E in Hb. exfalso. revert Hb. apply N.lt_nge. reflexivity.
Qed.

Lemma printable_not_control (b : byte) :
  printable_ascii b = true -> is_control (Byte.to_N b) = false.
Proof.
  unfold printable_ascii, is_control.
  intros H.
  repeat rewrite orb_true_iff in H.
  rewrite andb_true_iff in H.
  repeat rewrite N.leb_le in H.
  repeat rewrite N.eqb_eq in H.
  repeat rewrite orb_false_iff.
  repeat rewrite andb_false_iff.
  repeat rewrite N.leb_gt.
  lia.
Qed.

Lemma printable_no_control_chars (buffer : list byte) :
  forallb printable_ascii buffer = true ->
  filter is_control (bytes_as_text buffer) = [].
Proof.
  induction buffer as [|b rest IH]; [reflexivity|].
  cbn [forallb bytes_as_text map filter].
  intros H. apply andb_true_iff in H as [Hb Hrest].
  rewrite (printable_not_control b Hb).
  apply IH, Hrest.
Qed.

(** Splitting at the line feeds loses nothing. *)
Lemma join_split_newline (s : jsstring) :
  join_newline (split_newline s) = s.
Proof.
  induction s as [|c r IH]; [reflexivity|].
  cbn [split_newline].
  pose proof (split_newline_nonempty r) as Hne.
  destruct (N.eqb_spec c 10) as [->|_].
  - destruct (split_newline r) as [|l ls] eqn:E; [congruence|].
    change (join_newline ([] :: l :: ls)) with (10%N :: join_newline (l :: ls)).
    now rewrite IH.
  - destruct (split_newline r) as [|l ls] eqn:E; [congruence|].
    destruct ls as [|l' ls'].
    + cbn [join_newline] in *. now rewrite IH.
    + change (join_newline ((c :: l) :: l' :: ls'))
        with (c :: join_newline (l :: l' :: ls')).
      now rewrite IH.
Qed.

Lemma displayLine_short (line : jsstring) :
  length line <= maxLineLength -> displayLine line = line.
Proof.
  intros H. unfold displayLine.
  replace (Nat.ltb maxLineLength (length line)) with false; [reflexivity|].
  symmetry. apply Nat.ltb_ge, H.
Qed.

Lemma numbered_lines_short (ls : list jsstring) (start : nat) :
  forallb (fun l => Nat.leb (length l) maxLineLength) ls = true ->
  numbered_lines start ls = full_lines start ls.
Proof.
  revert start.
  induction ls as [|l rest IH]; intros start H; [reflexivity|].
  cbn [forallb] in H. apply andb_true_iff in H as [Hl Hrest].
  cbn [numbered_lines full_lines].
  rewrite (IH _ Hrest).
  unfold line_span, full_line_span.
  rewrite displayLine_short; [reflexivity|].
  apply Nat.leb_le, Hl.
Qed.

Lemma unescapeHTML_other (c : N) (rest : jsstring) :
  c <> 38%N -> unescapeHTML (c :: rest) = c :: unescapeHTML rest.
Proof.
  intros Hc.
  destruct c as [|p]; [reflexivity|].
  cbn [unescapeHTML].
  do 6 (destruct p as [p|p|]; try reflexivity); exfalso; auto.
Qed.

(** An escaped line reads back as the line. *)
Lemma unescape_escapeHTML (s : jsstring) : unescapeHTML (_escapeHTML s) = s.
Proof.
  rewrite escapeHTML_chars.
  induction s as [|c s IH]; [reflexivity|].
  cbn [flat_map]. unfold escape_char at 1.
  destruct (N.eqb_spec c 38) as [->|H38]; [cbn; now rewrite IH|].
  destruct (N.eqb_spec c 60) as [->|H60]; [cbn; now rewrite IH|].
  destruct (N.eqb_spec c 62) as [->|H62]; [cbn; now rewrite IH|].
  destruct (N.eqb_spec c 34) as [->|H34]; [cbn; now rewrite IH|].
  destruct (N.eqb_spec c 39) as [->|H39]; [cbn; now rewrite IH|].
  cbn [app].
  now rewrite unescapeHTML_other, IH.
Qed.

(** C5, as the code has it.  A file of plain ASCII text that its charset
    decodes byte for byte, with at most 500 lines of at most 300
    characters each, is returned as the text of its bytes, which is the
    lines of the section joined by line feeds; the section is the encoding
    header and one numbered line per line of the text, each shown in full
    (HTML-escaped, and read back as the line), with no ellipsis and no
    omission marker. *)
Theorem ascii_text_round_trip io file buffer :
  isBinaryFileSync io (path file) = Normal false ->
  readFileSync io (path file) = Normal buffer ->
  forallb printable_ascii buffer = true ->
  iconv_decode io buffer (or_default (chardet_detect io buffer) (lit "utf8"))
    = Normal (bytes_as_text buffer) ->
  length (split_newline (bytes_as_text buffer)) <= maxLines ->
  forallb (fun l => Nat.leb (length l) maxLineLength)
    (split_newline (bytes_as_text buffer)) = true ->
  let label := or_default (chardet_detect io buffer) (lit "utf8") in
  getFileContent io (path file) =
    Normal {| content := bytes_as_text buffer; error := None; encoding := Some label |}
  /\ join_newline (split_newline (bytes_as_text buffer)) = bytes_as_text buffer
  /\ _generateTextFileHTML io file =
       Normal (encoding_info label ++ lit "<pre>"
                 ++ full_lines 1 (split_newline (bytes_as_text buffer))
                 ++ lit "</pre>")
  /\ map (fun l => unescapeHTML (_escapeHTML l)) (split_newline (bytes_as_text buffer))
     = split_newline (bytes_as_text buffer).
Proof.
  intros Hbin Hread Hascii Hdec Hlines Hwidth label.
  assert (Hr : getFileContent io (path file) =
               Normal {| content := bytes_as_text buffer;
                         error := None; encoding := Some label |}).
  { rewrite (getFileContent_decoded _ _ Hbin Hread Hdec).
    rewrite strip_bom_bytes.
    now rewrite too_many_control_none by now apply printable_no_control_chars. }
  split; [exact Hr|].
  split; [apply join_split_newline|].
  split; [|rewrite <- (map_id (split_newline (bytes_as_text buffer))) at 2;
           apply map_ext; intros l; apply unescape_escapeHTML].
  rewrite (generateTextFileHTML_unfold _ _ Hr).
  cbn [error content truthy].
  replace (Nat.ltb maxLines (length (split_newline (bytes_as_text buffer))))
    with false by (symmetry; apply Nat.ltb_ge, Hlines).
  rewrite (numbered_lines_short _ _ Hwidth).
  unfold encoding_header. cbn [encoding].
  subst label.
  destruct (chardet_detect io buffer) as [[|c s]|]; reflexivity.
Qed.

Lemma ascii_text_round_trip_witness :
  _generateTextFileHTML (Examples.text_file_io Examples.hello None) Examples.some_file =
  Normal (encoding_info (lit "utf8") ++ lit "<pre>"
            ++ full_lines 1 [lit "hi"; lit "<b>"] ++ lit "</pre>").
Proof.
  refine (proj1 (proj2 (proj2 (@ascii_text_round_trip
                          (Examples.text_file_io Examples.hello None)
                          Examples.some_file Examples.hello
                          eq_refl eq_refl eq_refl eq_refl _ eq_refl)))).
  apply Nat.leb_le. vm_compute. reflexivity.
Defined.

(** A single line of 301 letters is plain ASCII under the line cap, yet the
    section shows its first 300 letters and an ellipsis. *)
Lemma long_line_is_cut :
  forallb printable_ascii Examples.line_of_301 = true
  /\ length (split_newline (bytes_as_text Examples.line_of_301)) <= maxLines
  /\ _generateTextFileHTML (Examples.text_file_io Examples.line_of_301 None) Examples.some_file =
     Normal (encoding_info (lit "utf8") ++ lit "<pre>"
               ++ open_tag "span" "file-content-line"
               ++ open_tag "span" "line-number" ++ lit "1" ++ lit "</span>"
               ++ repeat 97%N 300 ++ lit "..."
               ++ lit "</span>" ++ [10%N] ++ lit "</pre>")
  /\ _generateTextFileHTML (Examples.text_file_io Examples.line_of_301 None) Examples.some_file <>
     Normal (encoding_info (lit "utf8") ++ lit "<pre>"
               ++ full_lines 1 (split_newline (bytes_as_text Examples.line_of_301))
               ++ lit "</pre>").
Proof.
  split; [vm_compute; reflexivity|].
  split; [apply Nat.leb_le; vm_compute; reflexivity|].
  split; [vm_compute; reflexivity|].
  vm_compute. discriminate.
Qed.

(** The two bytes `y` and line feed are plain ASCII on one short line and
    its end, yet when the detector names `UTF-32LE` for them the reader
    returns what that charset decodes them to, one replacement character,
    and not the text of the bytes. *)
Lemma misdetected_text_is_not_the_bytes :
  forallb printable_ascii Examples.y_newline = true
  /\ length (split_newline (bytes_as_text Examples.y_newline)) <= maxLines
  /\ forallb (fun l => Nat.leb (length l) maxLineLength)
       (split_newline (bytes_as_text Examples.y_newline)) = true
  /\ getFileContent Examples.utf32_detected_io Examples.some_path
     = Normal {| content := [65533%N]; error := None;
                 encoding := Some (lit "UTF-32LE") |}
  /\ [65533%N] <> bytes_as_text Examples.y_newline.
Proof.
  repeat split; try (vm_compute; reflexivity).
  - apply Nat.leb_le. vm_compute. reflexivity.
  - vm_compute. discriminate.
Qed.

(** C5 fails as stated, in each of two ways: a plain ASCII file under the
    line cap is shown with a line cut after 300 characters, and a plain
    ASCII file is returned as something else than the text of its bytes when
    the detector names a charset that does not decode it byte for byte. *)
Lemma ascii_text_not_reproduced :
  (forallb printable_ascii Examples.line_of_301 = true
   /\ length (split_newline (bytes_as_text Examples.line_of_301)) <= maxLines
   /\ _generateTextFileHTML (Examples.text_file_io Examples.line_of_301 None)
        Examples.some_file <>
      Normal (encoding_info (lit "utf8") ++ lit "<pre>"
                ++ full_lines 1 (split_newline (bytes_as_text Examples.line_of_301))
                ++ lit "</pre>"))
  /\ (forallb printable_ascii Examples.y_newline = true
      /\ length (split_newline (bytes_as_text Examples.y_newline)) <= maxLines
      /\ getFileContent Examples.utf32_detected_io Examples.some_path
         = Normal {| content := [65533%N]; error := None;
                     encoding := Some (lit "UTF-32LE") |}
      /\ [65533%N] <> bytes_as_text Examples.y_newline).
Proof.
  split.
  - destruct long_line_is_cut as [H1 [H2 [_ H4]]]. auto.
  - destruct misdetected_text_is_not_the_bytes as [H1 [H2 [_ [H4 H5]]]]. auto.
Qed.

End AsciiText.

(** ** Lists, sorting and `forEach` *)

Section ListFacts.
Variables A B : Type.

Lemma stable_insert_In (cmp : A -> A -> Z) (x y : A) (l : list A) :
  In y (stable_insert cmp x l) <-> y = x \/ In y l.
Proof.
  induction l as [|z l IH]; cbn [stable_insert In].
  - intuition congruence.
  - destruct (Z.ltb 0 (cmp x z)); cbn [In]; [rewrite IH|]; intuition congruence.
Qed.

Lemma stable_sort_In (cmp : A -> A -> Z) (y : A) (l : list A) :
  In y (stable_sort cmp l) <-> In y l.
Proof.
  induction l as [|x l IH]; [reflexivity|].
  cbn [stable_sort fold_right].
  change (fold_right (stable_insert cmp) [] l) with (stable_sort cmp l).
  rewrite stable_insert_In, IH.
  cbn [In]. intuition congruence.
Qed.

Lemma stable_insert_length (cmp : A -> A -> Z) (x : A) (l : list A) :
  length (stable_insert cmp x l) = S (length l).
Proof.
  induction l as [|z l IH]; [reflexivity|].
  cbn [stable_insert]. destruct (Z.ltb 0 (cmp x z)); cbn [length]; [now rewrite IH | reflexivity].
Qed.

Lemma stable_sort_length (cmp : A -> A -> Z) (l : list A) :
  length (stable_sort cmp l) = length l.
Proof.
  induction l as [|x l IH]; [reflexivity|].
  cbn [stable_sort fold_right length].
  change (fold_right (stable_insert cmp) [] l) with (stable_sort cmp l).
  now rewrite stable_insert_length, IH.
Qed.

Lemma stable_insert_perm (cmp : A -> A -> Z) (x : A) (l : list A) :
  Permutation (stable_insert cmp x l) (x :: l).
Proof.
  induction l as [|y l IH]; cbn [stable_insert]; [reflexivity|].
  destruct (Z.ltb 0 (cmp x y)); [|reflexivity].
  rewrite IH. apply perm_swap.
Qed.

(** Sorting rearranges: nothing is lost and nothing is added. *)
Lemma stable_sort_perm (cmp : A -> A -> Z) (l : list A) :
  Permutation (stable_sort cmp l) l.
Proof.
  induction l as [|x l IH]; [reflexivity|].
  cbn [stable_sort fold_right].
  change (fold_right (stable_insert cmp) [] l) with (stable_sort cmp l).
  rewrite stable_insert_perm. now constructor.
Qed.

(** ** The sort with a comparison that can throw *)

Section ThrowingSort.
Variable cmp : B -> B -> completion Z.

Lemma sort_insert_normal (x : B) (l sorted : list B) :
  sort_insert cmp x l = Normal sorted ->
  length sorted = S (length l) /\ (forall y, In y sorted -> y = x \/ In y l).
Proof.
  revert sorted. induction l as [|y l IH]; intros sorted; cbn [sort_insert].
  - intros [= <-]. split; [reflexivity|]. intros z [<-|[]]. now left.
  - destruct (cmp x y) as [order|e]; cbn [bind]; [|discriminate].
    destruct (Z.ltb 0 order).
    + destruct (sort_insert cmp x l) as [rest|e]; cbn [bind]; [|discriminate].
      intros [= <-]. destruct (IH rest eq_refl) as [Hlen Hin].
      split; [cbn [length]; now rewrite Hlen|].
      intros z [<-|Hz]; [right; now left|].
      destruct (Hin z Hz); [now left | right; now right].
    + intros [= <-]. split; [reflexivity|].
      intros z [<-|Hz]; [now left | now right].
Qed.

(** When the sort ends without an exception, its result has the elements
    of the array and no other. *)
Lemma sort_normal (l sorted : list B) :
  sort cmp l = Normal sorted ->
  length sorted = length l /\ (forall y, In y sorted -> In y l).
Proof.
  revert sorted. induction l as [|x l IH]; intros sorted; cbn [sort].
  - intros [= <-]. split; [reflexivity | tauto].
  - destruct (sort cmp l) as [s|e]; cbn [bind]; [|discriminate].
    intros Hins. destruct (IH s eq_refl) as [Hlen Hin].
    destruct (sort_insert_normal _ _ Hins) as [Hlen' Hin'].
    split; [cbn [length]; now rewrite Hlen', Hlen|].
    intros y Hy. destruct (Hin' y Hy) as [->|Hy']; [now left | right; auto].
Qed.

Lemma sort_insert_throw (x : B) (l : list B) (e : thrown) :
  sort_insert cmp x l = Throw e -> exists y, In y l /\ cmp x y = Throw e.
Proof.
  induction l as [|y l IH]; cbn [sort_insert]; [discriminate|].
  destruct (cmp x y) as [order|e'] eqn:Hcmp; cbn [bind].
  - destruct (Z.ltb 0 order); [|discriminate].
    destruct (sort_insert cmp x l) as [rest|e']; cbn [bind]; [discriminate|].
    intros [= ->]. destruct (IH eq_refl) as [z [Hz Hthrow]].
    exists z. split; [now right | exact Hthrow].
  - intros [= ->]. exists y. split; [now left | exact Hcmp].
Qed.

(** An exception of the sort is an exception of a comparison of two
    elements of the array. *)
Lemma sort_throw (l : list B) (e : thrown) :
  sort cmp l = Throw e -> exists x y, In x l /\ In y l /\ cmp x y = Throw e.
Proof.
  induction l as [|x l IH]; cbn [sort]; [discriminate|].
  destruct (sort cmp l) as [s|e'] eqn:Hsort; cbn [bind].
  - intros Hins. destruct (sort_insert_throw _ _ Hins) as [y [Hy Hthrow]].
    exists x, y. split; [now left|]. split; [|exact Hthrow].
    right. now apply (proj2 (sort_normal _ Hsort)).
  - intros [= ->]. destruct (IH eq_refl) as [a [b [Ha [Hb Hthrow]]]].
    exists a, b. split; [now right|]. split; [now right | exact Hthrow].
Qed.

(** An element on which every comparison throws makes the sort of an array
    of two or more elements throw. *)
Lemma sort_throws (bad : B -> bool) (l : list B) :
  (forall x y, bad x = true -> exists e, cmp x y = Throw e) ->
  (forall x y, bad y = true -> exists e, cmp x y = Throw e) ->
  2 <= length l -> existsb bad l = true -> exists e, sort cmp l = Throw e.
Proof.
  intros Hleft Hright.
  induction l as [|x l IH]; intros Hlen Hbad; [cbn in Hlen; lia|].
  cbn [sort].
  destruct (sort cmp l) as [s|e] eqn:Hsort; cbn [bind]; [|now exists e].
  destruct (sort_normal _ Hsort) as [Hlen_s Hin_s].
  destruct s as [|y s]; [cbn [length] in *; lia|].
  cbn [sort_insert].
  destruct (bad x) eqn:Hx.
  - destruct (Hleft x y Hx) as [e ->]. now exists e.
  - cbn [existsb] in Hbad. rewrite Hx in Hbad. cbn [orb] in Hbad.
    destruct l as [|z l]; [discriminate|].
    destruct l as [|z' l].
    + (* one element: it is the bad one and the head of the sorted list *)
      cbn [existsb] in Hbad. rewrite orb_false_r in Hbad.
      assert (y = z) by (destruct (Hin_s y (or_introl eq_refl)) as [E|[]]; now symmetry).
      subst y. destruct (Hright x z Hbad) as [e ->]. now exists e.
    + destruct IH as [e He]; [cbn [length]; lia | exact Hbad |].
      congruence.
Qed.

End ThrowingSort.

(** With a comparison that does not throw on the elements, the sort is the
    stable sort. *)
Lemma sort_insert_stable (cmp : A -> A -> completion Z) (pure : A -> A -> Z)
    (ok : A -> Prop) :
  (forall a b, ok a -> ok b -> cmp a b = Normal (pure a b)) ->
  forall x l, ok x -> Forall ok l ->
    sort_insert cmp x l = Normal (stable_insert pure x l).
Proof.
  intros Hcmp x l Hx.
  induction l as [|y l IH]; intros Hl; [reflexivity|].
  apply Forall_cons_iff in Hl as [Hy Hl].
  cbn [sort_insert stable_insert].
  rewrite (Hcmp x y Hx Hy). cbn [bind].
  destruct (Z.ltb 0 (pure x y)); [|reflexivity].
  rewrite (IH Hl). reflexivity.
Qed.

Lemma sort_stable (cmp : A -> A -> completion Z) (pure : A -> A -> Z)
    (ok : A -> Prop) :
  (forall a b, ok a -> ok b -> cmp a b = Normal (pure a b)) ->
  forall l, Forall ok l -> sort cmp l = Normal (stable_sort pure l).
Proof.
  intros Hcmp l.
  induction l as [|x l IH]; intros Hl; [reflexivity|].
  apply Forall_cons_iff in Hl as [Hx Hl].
  cbn [sort stable_sort fold_right].
  change (fold_right (stable_insert pure) [] l) with (stable_sort pure l).
  rewrite (IH Hl). cbn [bind].
  apply (@sort_insert_stable cmp pure ok Hcmp); [exact Hx|].
  apply Forall_forall. intros z Hz. apply stable_sort_In in Hz.
  rewrite Forall_forall in Hl. now apply Hl.
Qed.

(** Sorting only looks at what the comparison looks at. *)
Lemma sort_insert_map (cmpA : A -> A -> completion Z) (cmpB : B -> B -> completion Z)
    (h : A -> B) :
  (forall a b, cmpB (h a) (h b) = cmpA a b) ->
  forall x l, sort_insert cmpB (h x) (map h l)
              = (sorted <- sort_insert cmpA x l ;; Normal (map h sorted)).
Proof.
  intros Hcmp x l.
  induction l as [|y l IH]; [reflexivity|].
  cbn [map sort_insert].
  rewrite Hcmp.
  destruct (cmpA x y) as [order|e]; cbn [bind]; [|reflexivity].
  destruct (Z.ltb 0 order); [|reflexivity].
  rewrite IH.
  destruct (sort_insert cmpA x l); reflexivity.
Qed.

Lemma sort_map (cmpA : A -> A -> completion Z) (cmpB : B -> B -> completion Z)
    (h : A -> B) :
  (forall a b, cmpB (h a) (h b) = cmpA a b) ->
  forall l, sort cmpB (map h l) = (sorted <- sort cmpA l ;; Normal (map h sorted)).
Proof.
  intros Hcmp l.
  induction l as [|x l IH]; [reflexivity|].
  cbn [map sort].
  rewrite IH.
  destruct (sort cmpA l) as [s|e]; cbn [bind]; [|reflexivity].
  now apply sort_insert_map.
Qed.

(** A callback that only pushes makes `forEach` a concatenation. *)
Lemma forEach_push (f : A -> nat -> list B -> completion unit * list B)
    (g : A -> nat -> list B) (xs : list A) :
  (forall x, In x xs -> forall i st, f x i st = (Normal tt, st ++ g x i)) ->
  forall i st, forEach f xs i st = (Normal tt, st ++ flat_mapi g xs i).
Proof.
  induction xs as [|x xs IH]; intros Hf i st.
  - cbn. now rewrite app_nil_r.
  - cbn [forEach flat_mapi].
    rewrite Hf by now left.
    rewrite IH by (intros; apply Hf; now right).
    now rewrite app_assoc.
Qed.

(** A callback that pushes until it throws leaves what it pushed for the
    elements before the one it throws at. *)
Lemma forEach_until (f : A -> nat -> list B -> completion unit * list B)
    (stop : A -> bool) (g : A -> list B) (xs : list A) :
  (forall x, In x xs -> forall i st,
     (stop x = true -> exists e, f x i st = (Throw e, st))
     /\ (stop x = false -> f x i st = (Normal tt, st ++ g x))) ->
  forall i st, snd (forEach f xs i st) = st ++ flat_map g (until stop xs).
Proof.
  induction xs as [|x xs IH]; intros Hf i st.
  - cbn. now rewrite app_nil_r.
  - cbn [forEach until].
    destruct (Hf x (or_introl eq_refl) i st) as [Hstop Hgo].
    destruct (stop x).
    + destruct (Hstop eq_refl) as [e ->]. cbn. now rewrite app_nil_r.
    + rewrite (Hgo eq_refl).
      rewrite IH by (intros; apply Hf; now right).
      cbn [flat_map]. now rewrite app_assoc.
Qed.



Lemma until_In (stop : A -> bool) (x : A) (l : list A) :
  In x (until stop l) -> In x l /\ stop x = false.
Proof.
  induction l as [|y l IH]; [intros []|].
  cbn [until]. destruct (stop y) eqn:Hy; [intros []|].
  intros [<-|Hx]; [split; [now left | exact Hy]|].
  destruct (IH Hx). split; [now right | assumption].
Qed.

Lemma until_all (stop : A -> bool) (l : list A) :
  (forall x, In x l -> stop x = false) -> until stop l = l.
Proof.
  induction l as [|y l IH]; intros H; [reflexivity|].
  cbn [until]. rewrite (H y (or_introl eq_refl)).
  f_equal. apply IH. intros x Hx. apply H. now right.
Qed.

(** Up to the first element the walk stops at, and without an element that
    contributes nothing. *)
Lemma flat_map_until_without (stop : A -> bool) (g : A -> list B)
    (before after : list A) (x : A) :
  stop x = false -> g x = [] ->
  flat_map g (until stop (before ++ x :: after))
  = flat_map g (until stop (before ++ after)).
Proof.
  intros Hstop Hg.
  induction before as [|y before IH]; cbn [app until].
  - rewrite Hstop. cbn [flat_map]. now rewrite Hg.
  - destruct (stop y); [reflexivity|]. cbn [flat_map]. now rewrite IH.
Qed.

Lemma flat_map_until_stop (stop : A -> bool) (g : A -> list B)
    (before after : list A) (x : A) :
  stop x = true ->
  flat_map g (until stop (before ++ x :: after)) = flat_map g (until stop before).
Proof.
  intros Hstop.
  induction before as [|y before IH]; cbn [app until].
  - now rewrite Hstop.
  - destruct (stop y); [reflexivity|]. cbn [flat_map]. now rewrite IH.
Qed.

End ListFacts.

Lemma flat_mapi_map {A A' B : Type} (h : A -> A') (g : A' -> nat -> list B)
    (xs : list A) (i : nat) :
  flat_mapi g (map h xs) i = flat_mapi (fun x => g (h x)) xs i.
Proof.
  revert i. induction xs as [|x xs IH]; intros i; [reflexivity|].
  cbn [map flat_mapi]. now rewrite IH.
Qed.

Lemma forEach_map {A A' St : Type} (h : A -> A')
    (f : A' -> nat -> St -> completion unit * St) (xs : list A) (i : nat) (st : St) :
  forEach f (map h xs) i st = forEach (fun x => f (h x)) xs i st.
Proof.
  revert i st. induction xs as [|x xs IH]; intros i st; [reflexivity|].
  cbn [map forEach]. destruct (f (h x) i st) as [[u|e] st']; [apply IH | reflexivity].
Qed.

Lemma flat_mapi_app {A B : Type} (g : A -> nat -> list B) (a b : list A) (i : nat) :
  flat_mapi g (a ++ b) i = flat_mapi g a i ++ flat_mapi g b (i + length a).
Proof.
  revert i. induction a as [|x a IH]; intros i.
  - cbn. now rewrite Nat.add_0_r.
  - cbn [app flat_mapi length]. rewrite IH, <- app_assoc.
    now rewrite Nat.add_succ_r.
Qed.

Lemma flat_mapi_below {A B : Type} (g : A -> nat -> list B) (h : A -> list B)
    (n : nat) (xs : list A) :
  (forall x j, j < n -> g x j = h x) ->
  forall i, i + length xs <= n -> flat_mapi g xs i = flat_map h xs.
Proof.
  intros Hg. induction xs as [|x xs IH]; intros i Hi; [reflexivity|].
  cbn [flat_mapi flat_map length] in *.
  rewrite Hg by lia. rewrite IH by lia. reflexivity.
Qed.

(** ** Induction on the directory tree *)

Section DirectoryInduction.
Variable P : directory -> Prop.
Hypothesis P_unreadable : forall e, P (Unreadable e).
Hypothesis P_listing :
  forall items,
    (forall item sub, In (item, Dir sub) items -> P sub) ->
    P (Listing items).

Fixpoint directory_induction (dir : directory) : P dir :=
  match dir with
  | Unreadable e => P_unreadable e
  | Listing items =>
      P_listing items
        ((fix each (l : list (jsstring * node)) :
            forall item sub, In (item, Dir sub) l -> P sub :=
            match l with
            | [] => fun _ _ H => match H with end
            | (item', child) :: rest =>
                fun item sub H =>
                  match H with
                  | or_introl E =>
                      match child return (item', child) = (item, Dir sub) -> P sub with
                      | Dir sub' =>
                          fun E' => eq_ind sub' P (directory_induction sub') sub
                                      (f_equal (fun p => match snd p with
                                                         | Dir d => d
                                                         | _ => sub'
                                                         end) E')
                      | File isBinary =>
                          fun E' => match eq_ind (File isBinary)
                                            (fun n => match n with
                                                      | File _ => True
                                                      | _ => False
                                                      end) I (Dir sub)
                                            (f_equal snd E') with end
                      | NoStat e =>
                          fun E' => match eq_ind (NoStat e)
                                            (fun n => match n with
                                                      | NoStat _ => True
                                                      | _ => False
                                                      end) I (Dir sub)
                                            (f_equal snd E') with end
                      end E
                  | or_intror H' => each rest item sub H'
                  end
            end) items)
  end.

End DirectoryInduction.

(** ** The walker *)

Section WalkerFacts.
Import FileCollector.
Variable baseDir : jsstring.
Variable ignores : jsstring -> bool.
Variable isRecursive : bool.
Variable localeCompare : jsstring -> jsstring -> Z.

Lemma relative_join (file : jsstring) :
  Path.relative baseDir (Path.join baseDir file) = file.
Proof.
  unfold Path.relative, Path.join.
  change (baseDir ++ Path.slash :: file) with (baseDir ++ [Path.slash] ++ file).
  rewrite app_assoc.
  replace (S (length baseDir)) with (length (baseDir ++ [Path.slash]))
    by (rewrite length_app; cbn; lia).
  rewrite skipn_app, skipn_all, Nat.sub_diag.
  reflexivity.
Qed.

Lemma all_stat_ok_In (items : list (jsstring * node)) (entry : jsstring * node) :
  all_stat_ok items = true -> In entry items -> stat_ok (snd entry) = true.
Proof.
  unfold all_stat_ok. rewrite forallb_forall. auto.
Qed.

Lemma entries_ok_In (items : list (jsstring * node)) (entry : jsstring * node) :
  entries_ok items = true -> In entry items ->
  stat_ok (snd entry) = true /\ probe_ok (snd entry) = true.
Proof.
  unfold entries_ok. rewrite forallb_forall. intros H Hin.
  apply andb_true_iff. auto.
Qed.

Lemma entries_ok_all_stat_ok (items : list (jsstring * node)) :
  entries_ok items = true -> all_stat_ok items = true.
Proof.
  intros H. apply forallb_forall. intros entry Hin.
  now destruct (@entries_ok_In items entry H Hin).
Qed.

(** A file that is probed has a type. *)
Lemma detectFileType_probed (filePath : jsstring) (isBinary : bool) :
  exists type, _detectFileType filePath (Normal isBinary) = Normal type.
Proof.
  unfold _detectFileType.
  destruct (existsb _ imageExts); eexists; reflexivity.
Qed.

Lemma entries_ok_no_stop (dirPath : jsstring) (items : list (jsstring * node)) :
  entries_ok items = true ->
  forall entry, In entry items -> stops baseDir ignores dirPath entry = false.
Proof.
  intros Hok [file child] Hin.
  destruct (@entries_ok_In items (file, child) Hok Hin) as [Hstat Hprobe].
  unfold stops. cbn [fst snd] in *.
  destruct (ignores _); [reflexivity|].
  destruct child as [[isBinary|e]|sub|e]; try discriminate; [|reflexivity].
  now destruct (detectFileType_probed (Path.join dirPath file) isBinary) as [type ->].
Qed.

Lemma entries_ok_until (dirPath : jsstring) (items : list (jsstring * node)) :
  entries_ok items = true -> until (stops baseDir ignores dirPath) items = items.
Proof.
  intros Hok. apply until_all. now apply entries_ok_no_stop.
Qed.

(** The files of a listing are those of its entries, one after the other,
    up to the first entry at which the walk stops. *)
Lemma files_of_listing (files : list (jsstring * node)) (dirPath : jsstring) :
  files_of baseDir ignores isRecursive (Listing files) dirPath
  = flat_map (entry_files baseDir ignores isRecursive dirPath)
      (until (stops baseDir ignores dirPath) files).
Proof.
  cbn [files_of].
  induction files as [|[file child] files IH]; [reflexivity|].
  cbn [until]. unfold stops at 1. cbn [fst snd].
  cbv zeta.
  destruct (ignores (Path.relative baseDir (Path.join dirPath file))) eqn:Hignored.
  - cbn [flat_map]. unfold entry_files at 1. cbn [fst snd]. rewrite Hignored.
    exact IH.
  - destruct child as [isBinary|sub|e].
    + destruct (_detectFileType (Path.join dirPath file) isBinary) as [type|e] eqn:Htype;
        [|reflexivity].
      cbn [flat_map]. unfold entry_files at 1. cbn [fst snd].
      rewrite Hignored, Htype. cbn [app]. now rewrite IH.
    + cbn [flat_map]. unfold entry_files at 1. cbn [fst snd].
      rewrite Hignored. now rewrite IH.
    + reflexivity.
Qed.

Lemma try_catch_pushing_logged {St : Type} (body : completion unit * St) :
  try_catch_pushing body (fun _ st => st) = snd body.
Proof.
  destruct body as [[u|e] st]; reflexivity.
Qed.

(** `_collectFilesRecursive` pushes the files below the directory, in the
    order the directories list them. *)
Lemma collectFilesRecursive_files_of (dir : directory) :
  forall dirPath result,
    _collectFilesRecursive baseDir ignores isRecursive dir dirPath result =
    result ++ files_of baseDir ignores isRecursive dir dirPath.
Proof.
  induction dir as [e|files IH] using directory_induction; intros dirPath result.
  - cbn. now rewrite app_nil_r.
  - rewrite files_of_listing.
    cbn [_collectFilesRecursive].
    rewrite try_catch_pushing_logged.
    apply forEach_until.
    intros [file child] Hin _ st.
    unfold stops, entry_files. cbn [fst snd].
    destruct (ignores _).
    { split; [discriminate | now rewrite app_nil_r]. }
    destruct child as [isBinary|sub|e].
    + destruct (_detectFileType (Path.join dirPath file) isBinary) as [type|e].
      * split; [discriminate | reflexivity].
      * split; [now exists e | discriminate].
    + split; [discriminate|]. intros _.
      destruct isRecursive; [|now rewrite app_nil_r].
      now rewrite (IH file sub Hin).
    + split; [now exists e | discriminate].
Qed.

Lemma collectFiles_files_of (root : directory) :
  collectFiles baseDir ignores isRecursive root =
  files_of baseDir ignores isRecursive root baseDir.
Proof.
  unfold collectFiles. now rewrite collectFilesRecursive_files_of.
Qed.

(** *** The tree *)

Lemma compareItems_stat_item {W : Type} (walk : directory -> jsstring -> W) (leaf : W)
    (currentDir : jsstring) (a b : jsstring * node) :
  compareItems localeCompare (stat_item walk leaf currentDir a)
                             (stat_item walk leaf currentDir b)
  = compare_entries localeCompare a b.
Proof.
  destruct a as [a ca], b as [b cb]. reflexivity.
Qed.

Lemma compare_entries_ok (a b : jsstring * node) :
  stat_ok (snd a) = true -> stat_ok (snd b) = true ->
  compare_entries localeCompare a b = Normal (entry_compare localeCompare a b).
Proof.
  destruct a as [a [pa|da|ea]], b as [b [pb|db|eb]]; try discriminate; reflexivity.
Qed.

(** What `_buildTree` sorts, and what the sort gives. *)
Lemma sort_stat_items {W : Type} (walk : directory -> jsstring -> W) (leaf : W)
    (currentDir : jsstring) (items : list (jsstring * node)) :
  sort (compareItems localeCompare) (map (stat_item walk leaf currentDir) items) =
  (sorted <- sort (compare_entries localeCompare) items ;;
   Normal (map (stat_item walk leaf currentDir) sorted)).
Proof.
  apply sort_map. intros a b. apply compareItems_stat_item.
Qed.

(** When every name can be stat'ed the sort is the stable sort, directories
    first, then by `localeCompare`. *)
Lemma sort_entries_ok (items : list (jsstring * node)) :
  all_stat_ok items = true ->
  sort (compare_entries localeCompare) items
  = Normal (stable_sort (entry_compare localeCompare) items).
Proof.
  intros Hok.
  apply (@sort_stable _ (compare_entries localeCompare) (entry_compare localeCompare)
           (fun entry => stat_ok (snd entry) = true)).
  - intros a b. apply compare_entries_ok.
  - apply Forall_forall. intros entry. now apply all_stat_ok_In.
Qed.

(** When two names or more are listed and one of them cannot be stat'ed,
    the sort throws what `statSync` throws for one of them. *)
Lemma sort_entries_error (first second : jsstring * node)
    (rest : list (jsstring * node)) :
  all_stat_ok (first :: second :: rest) = false ->
  exists item e,
    In (item, NoStat e) (first :: second :: rest)
    /\ sort (compare_entries localeCompare) (first :: second :: rest) = Throw e.
Proof.
  intros Hbad.
  destruct (@sort_throws _ (compare_entries localeCompare)
              (fun entry => negb (stat_ok (snd entry)))
              (first :: second :: rest)) as [e He].
  - intros [x cx] y Hx. unfold compare_entries. cbn [fst snd] in *.
    destruct cx as [p|d|e]; try discriminate. now exists e.
  - intros [x cx] [y cy] Hy. unfold compare_entries. cbn [fst snd] in *.
    destruct cy as [p|d|e]; try discriminate.
    destruct cx as [p'|d'|e']; [now exists e | now exists e | now exists e'].
  - cbn [length]. lia.
  - unfold all_stat_ok in Hbad.
    destruct (existsb _ _) eqn:Hex; [reflexivity|].
    rewrite <- Hbad. apply forallb_forall. intros entry Hin.
    destruct (stat_ok (snd entry)) eqn:Hstat; [reflexivity|].
    assert (existsb (fun entry => negb (stat_ok (snd entry)))
              (first :: second :: rest) = true); [|congruence].
    apply existsb_exists. exists entry. split; [exact Hin | now rewrite Hstat].
  - destruct (sort_throw _ _ He) as [[a ca] [[b cb] [Ha [Hb Hcmp]]]].
    unfold compare_entries in Hcmp. cbn [fst snd] in Hcmp.
    destruct ca as [pa|da|ea]; cbn [statSync_isDirectory bind] in Hcmp.
    + destruct cb as [pb|db|eb]; cbn [statSync_isDirectory bind] in Hcmp;
        try discriminate.
      injection Hcmp as <-. now exists b, eb.
    + destruct cb as [pb|db|eb]; cbn [statSync_isDirectory bind] in Hcmp;
        try discriminate.
      injection Hcmp as <-. now exists b, eb.
    + injection Hcmp as <-. now exists a, ea.
Qed.

(** The lines of a directory whose names can all be stat'ed: those drawn
    for its entries, in sorted order. *)
Lemma buildTree_listing_from (items : list (jsstring * node)) :
  (forall item sub, In (item, Dir sub) items ->
     forall currentDir prefix depth treeLines,
       _buildTree baseDir ignores isRecursive localeCompare sub
         currentDir prefix depth treeLines
       = treeLines ++ _buildTree baseDir ignores isRecursive localeCompare sub
                        currentDir prefix depth []) ->
  all_stat_ok items = true ->
  forall currentDir prefix depth treeLines,
    _buildTree baseDir ignores isRecursive localeCompare (Listing items)
      currentDir prefix depth treeLines =
    if (Nat.ltb 0 depth && negb isRecursive)%bool then treeLines
    else
      treeLines
        ++ flat_mapi (fun entry index =>
                        drawn baseDir ignores isRecursive localeCompare
                          currentDir prefix depth
                          (connector_at (length items) index)
                          (indent_at (length items) index) entry)
             (stable_sort (entry_compare localeCompare) items) 0.
Proof.
  intros Hsubs Hok currentDir prefix depth treeLines.
  cbn [_buildTree].
  destruct (Nat.ltb 0 depth && negb isRecursive)%bool; [reflexivity|].
  change (map _ items)
    with (map (stat_item (_buildTree baseDir ignores isRecursive localeCompare)
                 (fun _ _ (treeLines : list jsstring) => treeLines) currentDir) items).
  rewrite sort_stat_items, (sort_entries_ok _ Hok). cbn [bind].
  rewrite length_map, stable_sort_length, forEach_map.
  rewrite (forEach_push
             (fun entry =>
                buildTree_item baseDir ignores isRecursive currentDir prefix depth
                  (length items)
                  (stat_item (_buildTree baseDir ignores isRecursive localeCompare)
                     (fun _ _ treeLines => treeLines) currentDir entry))
             (fun entry index =>
                drawn baseDir ignores isRecursive localeCompare currentDir prefix depth
                  (connector_at (length items) index)
                  (indent_at (length items) index) entry)); [reflexivity|].
  intros [item child] Hin i st.
  apply stable_sort_In in Hin.
  pose proof (@all_stat_ok_In items (item, child) Hok Hin) as Hstat. cbn [snd] in Hstat.
  unfold buildTree_item, drawn, stat_item, connector_at, indent_at.
  cbn [name isDir subtree fst snd].
  destruct child as [isBinary|sub|e]; [| |discriminate];
    cbn [statSync_isDirectory is_directory andb].
  - destruct (ignores _); [now rewrite app_nil_r | reflexivity].
  - destruct (ignores _); [now rewrite app_nil_r|].
    destruct isRecursive; [|reflexivity].
    rewrite (Hsubs item sub Hin).
    now rewrite <- app_assoc.
Qed.

(** The line of a directory one of whose names cannot be stat'ed: what
    `statSync` throws for one of them, in place of all entries. *)
Lemma buildTree_listing_error (items : list (jsstring * node)) :
  all_stat_ok items = false ->
  exists item e,
    In (item, NoStat e) items
    /\ forall currentDir prefix depth treeLines,
         _buildTree baseDir ignores isRecursive localeCompare (Listing items)
           currentDir prefix depth treeLines =
         if (Nat.ltb 0 depth && negb isRecursive)%bool then treeLines
         else treeLines ++ [prefix ++ lit "Error: " ++ thrown_text e].
Proof.
  intros Hbad.
  destruct items as [|first rest]; [discriminate|].
  destruct rest as [|second rest].
  - (* one name: nothing is compared, the callback throws *)
    destruct first as [item [isBinary|sub|e]]; try discriminate.
    exists item, e. split; [now left|].
    intros currentDir prefix depth treeLines.
    cbn [_buildTree]. destruct (Nat.ltb 0 depth && negb isRecursive)%bool; reflexivity.
  - (* two names or more: the sort throws *)
    destruct (sort_entries_error _ _ _ Hbad) as [item [e [Hin He]]].
    exists item, e. split; [exact Hin|].
    intros currentDir prefix depth treeLines.
    cbn [_buildTree]. destruct (Nat.ltb 0 depth && negb isRecursive)%bool; [reflexivity|].
    change (map _ (first :: second :: rest))
      with (map (stat_item (_buildTree baseDir ignores isRecursive localeCompare)
                   (fun _ _ (treeLines : list jsstring) => treeLines) currentDir)
              (first :: second :: rest)).
    rewrite sort_stat_items, He. reflexivity.
Qed.

(** What `_buildTree` pushes does not depend on what the array holds. *)
Lemma buildTree_from_empty (dir : directory) :
  forall currentDir prefix depth treeLines,
    _buildTree baseDir ignores isRecursive localeCompare dir
      currentDir prefix depth treeLines
    = treeLines ++ _buildTree baseDir ignores isRecursive localeCompare dir
                     currentDir prefix depth [].
Proof.
  induction dir as [e|items IH] using directory_induction;
    intros currentDir prefix depth treeLines.
  - cbn [_buildTree].
    destruct (Nat.ltb 0 depth && negb isRecursive)%bool;
      [now rewrite app_nil_r | reflexivity].
  - destruct (all_stat_ok items) eqn:Hok.
    + rewrite (@buildTree_listing_from items IH Hok currentDir prefix depth treeLines).
      rewrite (@buildTree_listing_from items IH Hok currentDir prefix depth []).
      destruct (Nat.ltb 0 depth && negb isRecursive)%bool;
        [now rewrite app_nil_r | reflexivity].
    + destruct (@buildTree_listing_error items Hok) as [item [e [_ Herror]]].
      rewrite (Herror currentDir prefix depth treeLines).
      rewrite (Herror currentDir prefix depth []).
      destruct (Nat.ltb 0 depth && negb isRecursive)%bool;
        [now rewrite app_nil_r | reflexivity].
Qed.

Lemma buildTree_listing (items : list (jsstring * node)) :
  all_stat_ok items = true ->
  forall currentDir prefix depth treeLines,
    _buildTree baseDir ignores isRecursive localeCompare (Listing items)
      currentDir prefix depth treeLines =
    if (Nat.ltb 0 depth && negb isRecursive)%bool then treeLines
    else
      treeLines
        ++ flat_mapi (fun entry index =>
                        drawn baseDir ignores isRecursive localeCompare
                          currentDir prefix depth
                          (connector_at (length items) index)
                          (indent_at (length items) index) entry)
             (stable_sort (entry_compare localeCompare) items) 0.
Proof.
  apply buildTree_listing_from. intros item sub _. apply buildTree_from_empty.
Qed.

End WalkerFacts.

(** ** The per-kind counts *)

Lemma count_type_partition (files : list CollectedFile) :
  count_type text files + count_type image files + count_type binary files
  = length files.
Proof.
  unfold count_type.
  induction files as [|f files IH]; [reflexivity|].
  destruct f as [p [| |] r]; cbn [filter is_type type length] in *; lia.
Qed.

(** C9.  Every collected file is classified as exactly one of text, image
    and binary, so the three counts computed over the collected list add up
    to its length. *)
Theorem collected_counts_sum baseDir ignores isRecursive (root : directory) :
  let files := FileCollector.collectFiles baseDir ignores isRecursive root in
  Forall (fun f =>
            (is_type text f = true /\ is_type image f = false /\ is_type binary f = false)
            \/ (is_type text f = false /\ is_type image f = true /\ is_type binary f = false)
            \/ (is_type text f = false /\ is_type image f = false /\ is_type binary f = true))
         files
  /\ count_type text files + count_type image files + count_type binary files
     = length files.
Proof.
  intros files. split.
  - apply Forall_forall. intros f _. unfold is_type. destruct (type f); tauto.
  - apply count_type_partition.
Qed.

(** ** Connectors *)

(** C8 fails on the code: when the entry sorted last is ignored, the last
    entry that is shown keeps the connector of an inner entry.  Here `z.log`
    is ignored and `a.txt`, the only line below the root, is drawn with
    `├── `. *)
Theorem last_visible_entry_keeps_mid_connector :
  FileCollector.getDirectoryStructure Examples.base Examples.ignores_z_log true
    Examples.codeunit_compare Examples.text_and_log
  = [lit "root/"; FileCollector.mid_connector ++ lit "a.txt"]
  /\ FileCollector.mid_connector <> FileCollector.last_connector.
Proof.
  split; [vm_compute; reflexivity | discriminate].
Qed.

(** ** Paths below the base directory *)

Section PathFacts.
Variable baseDir : jsstring.

Lemma join_below (suffix item : jsstring) :
  Path.join (baseDir ++ suffix) item = baseDir ++ (suffix ++ Path.slash :: item).
Proof.
  unfold Path.join. now rewrite <- app_assoc.
Qed.

Lemma below_next (suffix item : jsstring) :
  below suffix -> below (suffix ++ Path.slash :: item).
Proof.
  intros [->|[s ->]]; right; eexists; reflexivity.
Qed.

(** The relative path of an entry of a directory below the base
    directory. *)
Lemma relative_below (suffix item : jsstring) :
  below suffix ->
  Path.relative baseDir (Path.join (baseDir ++ suffix) item)
  = match suffix with
    | [] => item
    | _ :: s => s ++ Path.slash :: item
    end.
Proof.
  intros [->|[s ->]].
  - rewrite app_nil_r. apply relative_join.
  - replace (Path.join (baseDir ++ Path.slash :: s) item)
      with (Path.join baseDir (s ++ Path.slash :: item)).
    + apply relative_join.
    + unfold Path.join. rewrite <- app_assoc. reflexivity.
Qed.

Lemma count_slashes_app (a b : jsstring) :
  count_slashes (a ++ b) = count_slashes a + count_slashes b.
Proof.
  unfold count_slashes. now rewrite filter_app, length_app.
Qed.

Lemma count_slashes_plain (item : jsstring) :
  existsb (N.eqb Path.slash) item = false -> count_slashes item = 0.
Proof.
  unfold count_slashes.
  induction item as [|c item IH]; [reflexivity|].
  cbn [existsb filter]. intros H. apply orb_false_iff in H as [Hc Hitem].
  rewrite Hc. now apply IH.
Qed.

Lemma basename_plain (item : jsstring) :
  existsb (N.eqb Path.slash) item = false -> Path.basename item = item.
Proof.
  destruct item as [|c item]; [reflexivity|].
  cbn [existsb Path.basename]. intros H. apply orb_false_iff in H as [Hc Hitem].
  rewrite Hitem. rewrite N.eqb_sym in Hc. now rewrite Hc.
Qed.

Lemma basename_after_slash (s item : jsstring) :
  existsb (N.eqb Path.slash) item = false ->
  Path.basename (s ++ Path.slash :: item) = item.
Proof.
  intros Hitem.
  induction s as [|c s IH].
  - cbn [app Path.basename]. rewrite Hitem. now rewrite N.eqb_refl.
  - cbn [app Path.basename].
    replace (existsb (N.eqb Path.slash) (s ++ Path.slash :: item)) with true; [exact IH|].
    symmetry. rewrite existsb_app. cbn [existsb]. rewrite N.eqb_refl.
    now rewrite orb_true_r.
Qed.

(** The depth and the name of the relative path of an entry. *)
Lemma relative_below_depth (suffix item : jsstring) :
  below suffix ->
  existsb (N.eqb Path.slash) item = false ->
  count_slashes (Path.relative baseDir (Path.join (baseDir ++ suffix) item))
  = count_slashes suffix
  /\ Path.basename (Path.relative baseDir (Path.join (baseDir ++ suffix) item)) = item.
Proof.
  intros Hbelow Hitem.
  rewrite (relative_below item Hbelow).
  destruct Hbelow as [->|[s ->]].
  - split; [now apply count_slashes_plain | now apply basename_plain].
  - split; [|now apply basename_after_slash].
    change (Path.slash :: s) with ([Path.slash] ++ s).
    change (s ++ Path.slash :: item) with (s ++ [Path.slash] ++ item).
    rewrite !count_slashes_app, (count_slashes_plain item Hitem).
    change (count_slashes [Path.slash]) with 1. lia.
Qed.

(** A line made of the indentation of a depth, a connector and a name shows
    the relative path of that depth and name. *)
Lemma shows_line (prefix connector item relativePath : jsstring) :
  length prefix = 4 * count_slashes relativePath ->
  connector = FileCollector.mid_connector \/ connector = FileCollector.last_connector ->
  Path.basename relativePath = item ->
  shows (prefix ++ connector ++ item) relativePath = true.
Proof.
  intros Hprefix Hconnector Hname.
  unfold shows.
  assert (Hlen : length connector = 4) by (destruct Hconnector; subst; reflexivity).
  rewrite <- Hprefix.
  rewrite skipn_app, skipn_all, Nat.sub_diag. cbn [app skipn].
  rewrite firstn_app, <- Hlen, firstn_all, Nat.sub_diag. cbn [firstn]. rewrite app_nil_r.
  replace (length prefix + length connector)
    with (length (prefix ++ connector)) by now rewrite length_app.
  rewrite app_assoc, skipn_app, skipn_all, Nat.sub_diag. cbn [app skipn].
  rewrite Hname.
  apply andb_true_iff. split.
  - apply orb_true_iff.
    destruct Hconnector as [->| ->]; [left | right]; unfold jsstring_eqb;
      now destruct (list_eq_dec N.eq_dec _ _).
  - unfold jsstring_eqb. now destruct (list_eq_dec N.eq_dec item item).
Qed.

Lemma is_directory_line_last (line : jsstring) (c : N) :
  is_directory_line (line ++ [c]) = N.eqb c Path.slash.
Proof.
  unfold is_directory_line. now rewrite rev_app_distr.
Qed.

(** A line that ends in a name holding no `/` is not the line of a
    directory. *)
Lemma file_line_kept (prefix connector item : jsstring) :
  connector = FileCollector.mid_connector \/ connector = FileCollector.last_connector ->
  existsb (N.eqb Path.slash) item = false ->
  is_directory_line (prefix ++ connector ++ item) = false.
Proof.
  intros Hconnector Hitem.
  destruct item as [|c0 item0].
  - rewrite app_nil_r.
    destruct Hconnector as [->| ->].
    + change FileCollector.mid_connector with ([9500; 9472; 9472] ++ [32])%N.
      now rewrite app_assoc, is_directory_line_last.
    + change FileCollector.last_connector with ([9492; 9472; 9472] ++ [32])%N.
      now rewrite app_assoc, is_directory_line_last.
  - destruct (@exists_last _ (c0 :: item0)) as [item' [c Heq]]; [discriminate|].
    rewrite Heq in *.
    rewrite !app_assoc, is_directory_line_last.
    rewrite existsb_app in Hitem. apply orb_false_iff in Hitem as [_ Hc].
    cbn [existsb] in Hc. rewrite orb_false_r, N.eqb_sym in Hc. exact Hc.
Qed.

End PathFacts.
(** ** The order of the file list *)

Section FileOrder.
Import FileCollector.
Variable baseDir : jsstring.
Variable ignores : jsstring -> bool.
Variable isRecursive : bool.
Variable localeCompare : jsstring -> jsstring -> Z.

Lemma all_show_app (a b c d : list jsstring) :
  all_show a b = true -> all_show c d = true -> all_show (a ++ c) (b ++ d) = true.
Proof.
  revert b. induction a as [|line a IH]; intros [|relativePath b]; cbn [all_show app];
    try discriminate; [auto|].
  intros H Hcd. apply andb_true_iff in H as [Hshows Hab].
  rewrite Hshows. cbn [andb]. now apply IH.
Qed.

(** What a regular directory lists. *)
Lemma regular_entry (items : list (jsstring * node)) (item : jsstring) (child : node) :
  regular (Listing items) = true -> In (item, child) items ->
  existsb (N.eqb Path.slash) item = false
  /\ ((exists isBinary, child = File (Normal isBinary))
      \/ (exists sub, child = Dir sub /\ regular sub = true)).
Proof.
  cbn [regular]. rewrite forallb_forall. intros H Hin.
  specialize (H _ Hin). cbn beta iota in H.
  apply andb_true_iff in H as [Hname Hchild].
  apply negb_true_iff in Hname. split; [exact Hname|].
  destruct child as [[isBinary|e]|sub|e]; try discriminate.
  - left. now exists isBinary.
  - right. now exists sub.
Qed.

Lemma regular_entries_ok (items : list (jsstring * node)) :
  regular (Listing items) = true -> entries_ok items = true.
Proof.
  intros Hregular. apply forallb_forall. intros [item child] Hin.
  destruct (@regular_entry items item child Hregular Hin) as [_ [[isBinary ->]|[sub [-> _]]]];
    reflexivity.
Qed.

Lemma listed_in_tree_order_below (items : list (jsstring * node)) item sub :
  listed_in_tree_order localeCompare (Listing items) ->
  In (item, Dir sub) items ->
  listed_in_tree_order localeCompare sub.
Proof.
  cbn [listed_in_tree_order]. intros [_ Hbelow].
  induction items as [|[item' child] items IH]; intros Hin; [destruct Hin|].
  destruct Hin as [E|Hin].
  - injection E as -> ->. apply Hbelow.
  - destruct child; [|destruct Hbelow as [_ Hbelow]|]; now apply IH.
Qed.

Lemma connector_at_cases (total index : nat) :
  connector_at total index = mid_connector \/ connector_at total index = last_connector.
Proof.
  unfold connector_at. destruct (Nat.eqb index (total - 1)); auto.
Qed.

Lemma indent_at_length (total index : nat) : length (indent_at total index) = 4.
Proof.
  unfold indent_at. destruct (Nat.eqb index (total - 1)); reflexivity.
Qed.

(** The line of a directory is not among the lines of files. *)
Lemma directory_line_dropped (prefix connector item : jsstring) :
  is_directory_line (prefix ++ connector ++ item ++ lit "/") = true.
Proof.
  change (lit "/") with [Path.slash].
  rewrite !app_assoc, is_directory_line_last. reflexivity.
Qed.

(** In a regular tree whose directories are all listed in sorted order, the
    lines of files show the collected files, one each and in the same
    order. *)
Lemma tree_shows_files_in_order (dir : directory) :
  forall suffix prefix depth,
    below suffix -> count_slashes suffix = depth -> length prefix = 4 * depth ->
    (Nat.ltb 0 depth && negb isRecursive)%bool = false ->
    regular dir = true ->
    listed_in_tree_order localeCompare dir ->
    all_show
      (filter (fun line => negb (is_directory_line line))
         (_buildTree baseDir ignores isRecursive localeCompare dir
            (baseDir ++ suffix) prefix depth []))
      (map relativePath (files_of baseDir ignores isRecursive dir (baseDir ++ suffix)))
    = true.
Proof.
  induction dir as [e|items IH] using directory_induction;
    intros suffix prefix depth Hbelow Hdepth Hprefix Hguard Hregular Hsorted.
  - discriminate.
  - pose proof (@regular_entries_ok items Hregular) as Hok.
    rewrite (@buildTree_listing baseDir ignores isRecursive localeCompare items (@entries_ok_all_stat_ok items Hok)), Hguard.
    cbn [app].
    rewrite files_of_listing, (@entries_ok_until baseDir ignores (baseDir ++ suffix) items Hok).
    destruct Hsorted as [Hsort Hsubs] eqn:E. clear E.
    rewrite Hsort.
    assert (Heach : forall l, incl l items -> forall i,
              all_show
                (filter (fun line => negb (is_directory_line line))
                   (flat_mapi (fun entry index =>
                                 drawn baseDir ignores isRecursive localeCompare
                                   (baseDir ++ suffix) prefix depth
                                   (connector_at (length items) index)
                                   (indent_at (length items) index) entry) l i))
                (map relativePath
                   (flat_map (entry_files baseDir ignores isRecursive (baseDir ++ suffix)) l))
              = true).
    { induction l as [|[item child] l IHl]; intros Hincl i; [reflexivity|].
      cbn [flat_mapi flat_map].
      rewrite filter_app, map_app.
      apply all_show_app; [|apply IHl; intros x Hx; apply Hincl; now right].
      assert (Hin : In (item, child) items) by (apply Hincl; now left).
      destruct (@regular_entry items item child Hregular Hin) as [Hname Hchild].
      destruct (@relative_below_depth baseDir suffix item Hbelow Hname) as [Hslashes Hbase].
      unfold drawn, entry_files. cbn [fst snd]. cbv zeta.
      destruct (ignores _); [reflexivity|].
      destruct Hchild as [[isBinary ->]|[sub [-> Hsub]]]; cbn [is_directory].
      - destruct (detectFileType_probed (Path.join (baseDir ++ suffix) item) isBinary)
          as [type ->].
        rewrite app_nil_r. cbn [filter].
        rewrite (@file_line_kept prefix _ item (connector_at_cases _ _) Hname).
        cbn [negb map relativePath all_show].
        rewrite andb_true_r.
        apply shows_line; [lia | apply connector_at_cases | exact Hbase].
      - cbn [filter]. rewrite directory_line_dropped. cbn [negb].
        destruct isRecursive eqn:Hrec; [|reflexivity].
        rewrite join_below.
        apply (IH item sub Hin).
        + now apply below_next.
        + change (suffix ++ Path.slash :: item) with (suffix ++ [Path.slash] ++ item).
          rewrite !count_slashes_app, (count_slashes_plain item Hname).
          change (count_slashes [Path.slash]) with 1. lia.
        + rewrite length_app, indent_at_length. lia.
        + now rewrite andb_false_r.
        + exact Hsub.
        + eapply listed_in_tree_order_below; [|exact Hin].
          split; assumption. }
    apply Heach. apply incl_refl.
Qed.

Lemma file_lines_getDirectoryStructure (root : directory) :
  file_lines (getDirectoryStructure baseDir ignores isRecursive localeCompare root)
  = filter (fun line => negb (is_directory_line line))
      (_buildTree baseDir ignores isRecursive localeCompare root baseDir [] 0 []).
Proof.
  unfold file_lines, getDirectoryStructure.
  rewrite buildTree_from_empty. reflexivity.
Qed.

(** C4, as the code has it.  The file list holds the files depth first in
    the order each directory is listed by the file system, with no sorting.
    It is in the order of the tree's lines when every directory is already
    listed the way the tree sorts it (directories first, then by
    `localeCompare`) and the tree is regular: the lines of
    `getDirectoryStructure` that draw files then show the collected files,
    one each, in the order of the list. *)
Theorem collectFiles_listing_order (root : directory) :
  collectFiles baseDir ignores isRecursive root
  = files_of baseDir ignores isRecursive root baseDir
  /\ (regular root = true ->
      listed_in_tree_order localeCompare root ->
      all_show
        (file_lines (getDirectoryStructure baseDir ignores isRecursive localeCompare root))
        (map relativePath (collectFiles baseDir ignores isRecursive root))
      = true).
Proof.
  split; [apply collectFiles_files_of|].
  intros Hregular Hsorted.
  rewrite file_lines_getDirectoryStructure, collectFiles_files_of.
  rewrite <- (app_nil_r baseDir) at 2 4.
  apply tree_shows_files_in_order; auto.
  now left.
Qed.

End FileOrder.

Lemma collectFiles_listing_order_witness :
  all_show
    (file_lines
       (FileCollector.getDirectoryStructure Examples.base Examples.ignores_nothing true
          Examples.codeunit_compare Examples.directory_before_file))
    (map relativePath
       (FileCollector.collectFiles Examples.base Examples.ignores_nothing true
          Examples.directory_before_file))
  = true.
Proof.
  apply (proj2 (collectFiles_listing_order Examples.base Examples.ignores_nothing true
                  Examples.codeunit_compare Examples.directory_before_file)).
  - reflexivity.
  - cbn [listed_in_tree_order Examples.directory_before_file].
    repeat split; vm_compute; reflexivity.
Defined.

(** C4 fails as stated: `a.txt` is listed before the directory `b`, so the
    file list starts with it, while the tree draws `b` and its `c.txt`
    first: the lines of files show `b/c.txt` and then `a.txt`, not the
    files in the order of the list. *)
Lemma file_list_not_in_tree_order :
  FileCollector.getDirectoryStructure Examples.base Examples.ignores_nothing true
    Examples.codeunit_compare Examples.file_before_directory
  = [lit "root/";
     FileCollector.mid_connector ++ lit "b/";
     FileCollector.mid_indent ++ FileCollector.last_connector ++ lit "c.txt";
     FileCollector.last_connector ++ lit "a.txt"]
  /\ map relativePath
       (FileCollector.collectFiles Examples.base Examples.ignores_nothing true
          Examples.file_before_directory)
     = [lit "a.txt"; lit "b/c.txt"]
  /\ all_show
       (file_lines
          (FileCollector.getDirectoryStructure Examples.base Examples.ignores_nothing true
             Examples.codeunit_compare Examples.file_before_directory))
       [lit "b/c.txt"; lit "a.txt"]
     = true
  /\ all_show
       (file_lines
          (FileCollector.getDirectoryStructure Examples.base Examples.ignores_nothing true
             Examples.codeunit_compare Examples.file_before_directory))
       (map relativePath
          (FileCollector.collectFiles Examples.base Examples.ignores_nothing true
             Examples.file_before_directory))
     = false.
Proof.
  repeat split; vm_compute; reflexivity.
Qed.

(** ** The recursion policy *)

Section RunFacts.
Variables A B : Type.

Lemma run_of_refl (l : list B) : run_of l l.
Proof.
  exists [], []. now rewrite app_nil_r.
Qed.

Lemma run_of_trans (a b c : list B) : run_of a b -> run_of b c -> run_of a c.
Proof.
  intros [p1 [q1 ->]] [p2 [q2 ->]].
  exists (p2 ++ p1), (q1 ++ q2).
  now rewrite <- !app_assoc.
Qed.

Lemma run_of_cons (x : B) (l : list B) : run_of l (x :: l).
Proof.
  exists [x], []. now rewrite app_nil_r.
Qed.

Lemma run_of_flat_mapi (g : A -> nat -> list B) (xs : list A) (y : A) :
  In y xs -> forall i, exists j, run_of (g y j) (flat_mapi g xs i).
Proof.
  induction xs as [|x xs IH]; intros Hin i; [destruct Hin|].
  cbn [flat_mapi].
  destruct Hin as [->|Hin].
  - exists i, [], (flat_mapi g xs (S i)). reflexivity.
  - destruct (IH Hin (S i)) as [j [p [q E]]].
    exists j, (g x i ++ p), q. rewrite E. now rewrite <- app_assoc.
Qed.


End RunFacts.

Lemma run_of_In {A : Type} (part whole : list A) (x : A) :
  run_of part whole -> In x part -> In x whole.
Proof.
  intros [before [after ->]] Hx.
  apply in_or_app. right. apply in_or_app. now left.
Qed.

Section RecursionPolicy.
Import FileCollector.
Variable baseDir : jsstring.
Variable ignores : jsstring -> bool.
Variable localeCompare : jsstring -> jsstring -> Z.




(** The lines of a directory that the walk reaches are drawn as one run,
    indented by four characters for each directory above it. *)
Lemma reached_lines (root sub : directory) (subPath : jsstring) (depth : nat) :
  reached baseDir ignores root sub subPath depth ->
  exists prefix,
    length prefix = 4 * depth
    /\ run_of (_buildTree baseDir ignores true localeCompare sub subPath prefix depth [])
              (_buildTree baseDir ignores true localeCompare root baseDir [] 0 []).
Proof.
  induction 1 as [|items dirPath depth item sub Hreached IH Hok Hin Hvisible].
  - exists []. split; [reflexivity | apply run_of_refl].
  - destruct IH as [prefix [Hprefix IH]].
    rewrite (buildTree_listing baseDir ignores true localeCompare _
               (entries_ok_all_stat_ok _ Hok)) in IH.
    rewrite andb_false_r in IH. cbn [app] in IH.
    apply (stable_sort_In (entry_compare localeCompare)) in Hin.
    destruct (run_of_flat_mapi
                (fun entry index =>
                   drawn baseDir ignores true localeCompare dirPath prefix depth
                     (connector_at (length items) index)
                     (indent_at (length items) index) entry)
                _ _ Hin 0) as [j Hrun].
    unfold drawn at 1 in Hrun. cbn [fst snd] in Hrun.
    rewrite Hvisible, Nat.add_1_r in Hrun.
    exists (prefix ++ indent_at (length items) j).
    split; [rewrite length_app, indent_at_length; lia|].
    refine (run_of_trans _ IH).
    refine (run_of_trans _ Hrun).
    apply run_of_cons.
Qed.


End RecursionPolicy.



(** ** The version-control directory *)

Section DotGit.
Import FileCollector.






End DotGit.
(** * Further properties *)

(** ** The tree and the file list *)

Section SameFiles.
Import FileCollector.
Variable baseDir : jsstring.
Variable ignores : jsstring -> bool.
Variable isRecursive : bool.
Variable localeCompare : jsstring -> jsstring -> Z.

(** In a regular tree, the lines of files show the collected files, one
    each, in the order of some rearrangement of the list. *)
Lemma tree_shows_files (dir : directory) :
  forall suffix prefix depth,
    below suffix -> count_slashes suffix = depth -> length prefix = 4 * depth ->
    (Nat.ltb 0 depth && negb isRecursive)%bool = false ->
    regular dir = true ->
    exists relativePaths,
      Permutation relativePaths
        (map relativePath (files_of baseDir ignores isRecursive dir (baseDir ++ suffix)))
      /\ all_show
           (filter (fun line => negb (is_directory_line line))
              (_buildTree baseDir ignores isRecursive localeCompare dir
                 (baseDir ++ suffix) prefix depth []))
           relativePaths
         = true.
Proof.
  induction dir as [e|items IH] using directory_induction;
    intros suffix prefix depth Hbelow Hdepth Hprefix Hguard Hregular.
  - discriminate.
  - pose proof (@regular_entries_ok items Hregular) as Hok.
    rewrite (@buildTree_listing baseDir ignores isRecursive localeCompare items
               (@entries_ok_all_stat_ok items Hok)), Hguard.
    cbn [app].
    rewrite files_of_listing, (@entries_ok_until baseDir ignores (baseDir ++ suffix) items Hok).
    assert (Heach : forall l, incl l items -> forall i,
              exists relativePaths,
                Permutation relativePaths
                  (map relativePath
                     (flat_map (entry_files baseDir ignores isRecursive (baseDir ++ suffix)) l))
                /\ all_show
                     (filter (fun line => negb (is_directory_line line))
                        (flat_mapi (fun entry index =>
                                      drawn baseDir ignores isRecursive localeCompare
                                        (baseDir ++ suffix) prefix depth
                                        (connector_at (length items) index)
                                        (indent_at (length items) index) entry) l i))
                     relativePaths
                   = true).
    { induction l as [|[item child] l IHl]; intros Hincl i.
      { exists []. split; [constructor | reflexivity]. }
      destruct (IHl (fun x Hx => Hincl x (or_intror Hx)) (S i))
        as [rest [Hrest_perm Hrest_show]].
      assert (Hin : In (item, child) items) by (apply Hincl; now left).
      destruct (@regular_entry items item child Hregular Hin) as [Hname Hchild].
      destruct (@relative_below_depth baseDir suffix item Hbelow Hname) as [Hslashes Hbase].
      assert (Hentry :
                exists relativePaths,
                  Permutation relativePaths
                    (map relativePath
                       (entry_files baseDir ignores isRecursive (baseDir ++ suffix)
                          (item, child)))
                  /\ all_show
                       (filter (fun line => negb (is_directory_line line))
                          (drawn baseDir ignores isRecursive localeCompare
                             (baseDir ++ suffix) prefix depth
                             (connector_at (length items) i)
                             (indent_at (length items) i) (item, child)))
                       relativePaths
                     = true).
      { unfold drawn, entry_files. cbn [fst snd]. cbv zeta.
        destruct (ignores _); [exists []; split; [constructor | reflexivity]|].
        destruct Hchild as [[isBinary ->]|[sub [-> Hsub]]]; cbn [is_directory].
        - destruct (detectFileType_probed (Path.join (baseDir ++ suffix) item) isBinary)
            as [type ->].
          eexists. split; [reflexivity|].
          rewrite app_nil_r. cbn [filter].
          rewrite (@file_line_kept prefix _ item (connector_at_cases _ _) Hname).
          cbn [negb map relativePath all_show].
          rewrite andb_true_r.
          apply shows_line; [lia | apply connector_at_cases | exact Hbase].
        - cbn [filter]. rewrite directory_line_dropped. cbn [negb].
          destruct isRecursive eqn:Hrec; [|exists []; split; [constructor | reflexivity]].
          rewrite join_below.
          apply (IH item sub Hin).
          + now apply below_next.
          + change (suffix ++ Path.slash :: item) with (suffix ++ [Path.slash] ++ item).
            rewrite !count_slashes_app, (count_slashes_plain item Hname).
            change (count_slashes [Path.slash]) with 1. lia.
          + rewrite length_app, indent_at_length. lia.
          + now rewrite andb_false_r.
          + exact Hsub. }
      destruct Hentry as [first [Hfirst_perm Hfirst_show]].
      exists (first ++ rest). split.
      - cbn [flat_map]. rewrite map_app. now apply Permutation_app.
      - cbn [flat_mapi]. rewrite filter_app. now apply all_show_app. }
    destruct (Heach (stable_sort (entry_compare localeCompare) items)
                (fun x Hx => proj1 (stable_sort_In _ x items) Hx) 0)
      as [relativePaths [Hperm Hshow]].
    exists relativePaths. split; [|exact Hshow].
    rewrite Hperm.
    apply Permutation_map, Permutation_flat_map, stable_sort_perm.
Qed.

(** X1.  In a regular tree, the tree and the file list show the same files:
    the lines of `getDirectoryStructure` that draw files show the relative
    paths of the collected files, one line for each file, in some order. *)
Theorem tree_and_file_list_same_files (root : directory) :
  regular root = true ->
  exists relativePaths,
    Permutation relativePaths
      (map relativePath (collectFiles baseDir ignores isRecursive root))
    /\ all_show
         (file_lines (getDirectoryStructure baseDir ignores isRecursive localeCompare root))
         relativePaths
       = true.
Proof.
  intros Hregular.
  rewrite file_lines_getDirectoryStructure, collectFiles_files_of.
  pose proof (@tree_shows_files root [] [] 0 (or_introl eq_refl) eq_refl eq_refl
                eq_refl Hregular) as H.
  rewrite app_nil_r in H. exact H.
Qed.

End SameFiles.

Lemma tree_and_file_list_same_files_witness :
  exists relativePaths,
    Permutation relativePaths
      (map relativePath
         (FileCollector.collectFiles Examples.base Examples.ignores_nothing true
            Examples.file_before_directory))
    /\ all_show
         (file_lines
            (FileCollector.getDirectoryStructure Examples.base Examples.ignores_nothing true
               Examples.codeunit_compare Examples.file_before_directory))
         relativePaths
       = true.
Proof.
  apply tree_and_file_list_same_files. reflexivity.
Defined.

(** ** The paths of the collected files *)

Section CollectedPaths.
Import FileCollector.
Variable baseDir : jsstring.
Variable ignores : jsstring -> bool.
Variable isRecursive : bool.

Lemma join_relative_below (suffix file : jsstring) :
  below suffix ->
  Path.join baseDir (Path.relative baseDir (Path.join (baseDir ++ suffix) file))
  = Path.join (baseDir ++ suffix) file.
Proof.
  intros [->|[s ->]].
  - rewrite app_nil_r. now rewrite relative_join.
  - replace (Path.join (baseDir ++ Path.slash :: s) file)
      with (Path.join baseDir (s ++ Path.slash :: file)).
    + now rewrite relative_join.
    + unfold Path.join. rewrite <- app_assoc. reflexivity.
Qed.

Lemma files_of_paths (dir : directory) :
  forall suffix,
    below suffix ->
    Forall (fun f => path f = Path.join baseDir (relativePath f)
                     /\ ignores (relativePath f) = false)
           (files_of baseDir ignores isRecursive dir (baseDir ++ suffix)).
Proof.
  induction dir as [e|items IH] using directory_induction; intros suffix Hsuffix.
  - constructor.
  - rewrite files_of_listing.
    apply Forall_forall. intros f Hf.
    apply in_flat_map in Hf as [[item child] [Hin Hf]].
    apply until_In in Hin as [Hin _].
    unfold entry_files in Hf. cbn [fst snd] in Hf.
    destruct (ignores (Path.relative baseDir (Path.join (baseDir ++ suffix) item)))
      eqn:Hvisible; [destruct Hf|].
    destruct child as [isBinary|sub|e]; [| |destruct Hf].
    + destruct (_detectFileType _ isBinary) as [type|e]; [|destruct Hf].
      destruct Hf as [<-|[]]. cbn [path relativePath].
      split; [|exact Hvisible].
      symmetry. now apply join_relative_below.
    + destruct isRecursive; [|destruct Hf].
      specialize (IH item sub Hin _ (below_next item Hsuffix)).
      rewrite Forall_forall in IH.
      apply IH. rewrite <- join_below. exact Hf.
Qed.

(** X2.  Every collected file has a relative path that the ignore rules let
    through, and its full path is the base directory joined with that
    relative path. *)
Theorem collected_files_paths (root : directory) :
  Forall (fun f => path f = Path.join baseDir (relativePath f)
                   /\ ignores (relativePath f) = false)
         (collectFiles baseDir ignores isRecursive root).
Proof.
  rewrite collectFiles_files_of.
  rewrite <- (app_nil_r baseDir) at 2.
  apply files_of_paths. now left.
Qed.

End CollectedPaths.

(** ** A directory that cannot be listed *)

Section Unlistable.
Import FileCollector.
Variable baseDir : jsstring.
Variable ignores : jsstring -> bool.
Variable localeCompare : jsstring -> jsstring -> Z.

(** X3.  A directory that cannot be listed does not stop the walk.  As the
    root it gives the root line and one `Error:` line, and no file.  As an
    entry of the root it leaves the file list as it is without that entry.
    In a recursive walk, wherever it is reached, the tree holds the line
    `Error: ` followed by the message of the exception. *)
Theorem unlistable_directory_is_skipped (e : thrown) :
  (forall isRecursive,
     getDirectoryStructure baseDir ignores isRecursive localeCompare (Unreadable e)
     = [Path.basename baseDir ++ lit "/"; lit "Error: " ++ thrown_text e]
     /\ collectFiles baseDir ignores isRecursive (Unreadable e) = [])
  /\ (forall isRecursive before name after,
        collectFiles baseDir ignores isRecursive
          (Listing (before ++ (name, Dir (Unreadable e)) :: after))
        = collectFiles baseDir ignores isRecursive (Listing (before ++ after)))
  /\ (forall root subPath depth,
        reached baseDir ignores root (Unreadable e) subPath depth ->
        exists prefix,
          In (prefix ++ lit "Error: " ++ thrown_text e)
             (getDirectoryStructure baseDir ignores true localeCompare root)).
Proof.
  split; [|split].
  - intros isRecursive. split; reflexivity.
  - intros isRecursive before name after.
    rewrite !collectFiles_files_of, !files_of_listing.
    apply flat_map_until_without.
    + unfold stops. cbn [fst snd]. now destruct (ignores _).
    + unfold entry_files. cbn [fst snd].
      destruct (ignores _); [reflexivity|].
      destruct isRecursive; reflexivity.
  - intros root subPath depth Hreached.
    destruct (reached_lines localeCompare Hreached) as [prefix [_ Hrun]].
    exists prefix.
    unfold getDirectoryStructure. rewrite buildTree_from_empty.
    right. cbn [app].
    apply (@run_of_In _ _ _ _ Hrun).
    cbn [_buildTree]. rewrite andb_false_r. now left.
Qed.

End Unlistable.

Lemma unlistable_directory_is_skipped_witness :
  exists prefix,
    In (prefix ++ lit "Error: " ++ lit "EACCES: permission denied")
       (FileCollector.getDirectoryStructure Examples.base Examples.ignores_nothing true
          Examples.codeunit_compare MoreExamples.with_locked).
Proof.
  apply (proj2 (proj2 (unlistable_directory_is_skipped
                         Examples.base Examples.ignores_nothing
                         Examples.codeunit_compare
                         (ErrorObject (lit "EACCES: permission denied"))))
           MoreExamples.with_locked
           (Path.join Examples.base (lit "locked")) 1).
  eapply reached_sub.
  - apply reached_root.
  - reflexivity.
  - right. left. reflexivity.
  - reflexivity.
Defined.

(** ** The order in which a directory is listed *)

Section SortedLists.
Variable A : Type.
Variable cmp : A -> A -> Z.
Variable dom : A -> Prop.
Hypothesis cmp_asym : forall a b, dom a -> dom b -> (0 < cmp a b)%Z -> (cmp b a <= 0)%Z.
Hypothesis cmp_trans :
  forall a b c, dom a -> dom b -> dom c ->
                (cmp a b <= 0)%Z -> (cmp b c <= 0)%Z -> (cmp a c <= 0)%Z.
Hypothesis cmp_anti :
  forall a b, dom a -> dom b -> (cmp a b <= 0)%Z -> (cmp b a <= 0)%Z -> a = b.

Let le (a b : A) : Prop := (cmp a b <= 0)%Z.

Lemma stable_insert_sorted (x : A) (l : list A) :
  dom x -> Forall dom l ->
  StronglySorted le l -> StronglySorted le (stable_insert cmp x l).
Proof.
  intros Hx Hl Hsorted.
  induction Hsorted as [|y l Hsorted IH Hy]; cbn [stable_insert].
  - constructor; constructor.
  - apply Forall_cons_iff in Hl as [Hdy Hl].
    destruct (Z.ltb_spec 0 (cmp x y)) as [Hgt|Hle].
    + constructor; [now apply IH|].
      apply Forall_forall. intros z Hz.
      apply stable_insert_In in Hz as [->|Hz].
      * now apply cmp_asym.
      * rewrite Forall_forall in Hy. now apply Hy.
    + constructor; [now constructor|].
      constructor; [exact Hle|].
      apply Forall_forall. intros z Hz.
      rewrite Forall_forall in Hy, Hl.
      apply (cmp_trans Hx Hdy (Hl z Hz) Hle (Hy z Hz)).
Qed.

Lemma stable_sort_sorted (l : list A) : Forall dom l -> StronglySorted le (stable_sort cmp l).
Proof.
  induction l as [|x l IH]; intros Hl; [constructor|].
  apply Forall_cons_iff in Hl as [Hx Hl].
  cbn [stable_sort fold_right].
  change (fold_right (stable_insert cmp) [] l) with (stable_sort cmp l).
  apply stable_insert_sorted; [exact Hx | | now apply IH].
  apply Forall_forall. intros z Hz. apply stable_sort_In in Hz.
  rewrite Forall_forall in Hl. now apply Hl.
Qed.

Lemma sorted_permutation_eq (l l' : list A) :
  StronglySorted le l -> StronglySorted le l' ->
  Permutation l l' -> Forall dom l -> l = l'.
Proof.
  intros Hl. revert l'.
  induction Hl as [|x l Hl IH Hx]; intros l' Hl' Hperm Hdom.
  - now apply Permutation_nil in Hperm.
  - destruct Hl' as [|y l' Hl' Hy].
    + symmetry in Hperm. now apply Permutation_nil in Hperm.
    + apply Forall_cons_iff in Hdom as [Hdx Hdom].
      assert (Hxy : x = y).
      { assert (Hin_x : In x (y :: l')) by (apply (Permutation_in _ Hperm); now left).
        assert (Hin_y : In y (x :: l))
          by (apply (Permutation_in _ (Permutation_sym Hperm)); now left).
        destruct Hin_x as [->|Hin_x]; [reflexivity|].
        destruct Hin_y as [->|Hin_y]; [reflexivity|].
        rewrite Forall_forall in Hx, Hy, Hdom.
        apply cmp_anti; [exact Hdx | now apply Hdom | now apply Hx | now apply Hy]. }
      subst y. f_equal.
      apply IH; [exact Hl' | now apply Permutation_cons_inv in Hperm | exact Hdom].
Qed.

Lemma stable_sort_of_permutation (l l' : list A) :
  Forall dom l -> Permutation l l' -> stable_sort cmp l = stable_sort cmp l'.
Proof.
  intros Hdom Hperm.
  assert (Hdom' : Forall dom l').
  { apply Forall_forall. intros z Hz. rewrite Forall_forall in Hdom.
    apply Hdom. now apply (Permutation_in _ (Permutation_sym Hperm)). }
  apply sorted_permutation_eq.
  - now apply stable_sort_sorted.
  - now apply stable_sort_sorted.
  - rewrite !stable_sort_perm. exact Hperm.
  - apply Forall_forall. intros z Hz. apply stable_sort_In in Hz.
    rewrite Forall_forall in Hdom. now apply Hdom.
Qed.

End SortedLists.

Section ListingOrder.
Import FileCollector.
Variable baseDir : jsstring.
Variable ignores : jsstring -> bool.
Variable isRecursive : bool.
Variable localeCompare : jsstring -> jsstring -> Z.

Lemma all_stat_ok_permutation (items items' : list (jsstring * node)) :
  Permutation items items' -> all_stat_ok items = true -> all_stat_ok items' = true.
Proof.
  intros Hperm Hok. apply forallb_forall. intros entry Hin.
  apply (@all_stat_ok_In items entry Hok).
  now apply (Permutation_in _ (Permutation_sym Hperm)).
Qed.

(** X4.  The tree does not depend on the order in which the file system
    lists a directory: when every entry of the root can be stat'ed and the
    sort comparison is a total order on them (which asks the collation to
    tell their names apart), two listings of the same entries give the same
    tree lines. *)
Theorem tree_independent_of_listing_order (items items' : list (jsstring * node)) :
  Permutation items items' ->
  all_stat_ok items = true ->
  (forall a b, In a items -> In b items ->
     (0 < entry_compare localeCompare a b)%Z -> (entry_compare localeCompare b a <= 0)%Z) ->
  (forall a b c, In a items -> In b items -> In c items ->
     (entry_compare localeCompare a b <= 0)%Z ->
     (entry_compare localeCompare b c <= 0)%Z ->
     (entry_compare localeCompare a c <= 0)%Z) ->
  (forall a b, In a items -> In b items ->
     (entry_compare localeCompare a b <= 0)%Z ->
     (entry_compare localeCompare b a <= 0)%Z -> a = b) ->
  getDirectoryStructure baseDir ignores isRecursive localeCompare (Listing items)
  = getDirectoryStructure baseDir ignores isRecursive localeCompare (Listing items').
Proof.
  intros Hperm Hok Hasym Htrans Hanti.
  unfold getDirectoryStructure.
  rewrite (@buildTree_listing baseDir ignores isRecursive localeCompare items Hok).
  rewrite (@buildTree_listing baseDir ignores isRecursive localeCompare items'
             (all_stat_ok_permutation Hperm Hok)).
  cbn [Nat.ltb Nat.leb andb].
  rewrite <- (Permutation_length Hperm).
  rewrite <- (@stable_sort_of_permutation _ (entry_compare localeCompare)
                (fun a => In a items) Hasym Htrans Hanti items items');
    [reflexivity | | exact Hperm].
  apply Forall_forall. auto.
Qed.

End ListingOrder.

Lemma tree_independent_of_listing_order_witness :
  FileCollector.getDirectoryStructure Examples.base Examples.ignores_nothing true
    Examples.codeunit_compare Examples.file_before_directory
  = FileCollector.getDirectoryStructure Examples.base Examples.ignores_nothing true
      Examples.codeunit_compare Examples.directory_before_file.
Proof.
  apply tree_independent_of_listing_order.
  - apply perm_swap.
  - reflexivity.
  - intros a b [<-|[<-|[]]] [<-|[<-|[]]]; vm_compute; intros; congruence.
  - intros a b c [<-|[<-|[]]] [<-|[<-|[]]] [<-|[<-|[]]]; vm_compute; intros; congruence.
  - intros a b [<-|[<-|[]]] [<-|[<-|[]]]; vm_compute; intros; congruence.
Defined.

(** ** Connectors and indentation *)

Section Connectors.
Import FileCollector.
Variable baseDir : jsstring.
Variable ignores : jsstring -> bool.
Variable isRecursive : bool.
Variable localeCompare : jsstring -> jsstring -> Z.

(** X5.  In the lines of a directory whose names can all be stat'ed, every
    entry before the one sorted last is drawn with `├── ` and what lies below
    it is indented with `│   `; the entry sorted last is drawn with `└── `
    and what lies below it is indented with blanks.  An ignored entry draws
    nothing, in either position. *)
Theorem tree_connectors (items earlier : list (jsstring * node)) (lastEntry : jsstring * node)
    (currentDir prefix : jsstring) (depth : nat) (treeLines : list jsstring) :
  all_stat_ok items = true ->
  stable_sort (entry_compare localeCompare) items = earlier ++ [lastEntry] ->
  (Nat.ltb 0 depth && negb isRecursive)%bool = false ->
  _buildTree baseDir ignores isRecursive localeCompare (Listing items)
    currentDir prefix depth treeLines
  = treeLines
      ++ flat_map (drawn baseDir ignores isRecursive localeCompare
                     currentDir prefix depth mid_connector mid_indent) earlier
      ++ drawn baseDir ignores isRecursive localeCompare
           currentDir prefix depth last_connector last_indent lastEntry.
Proof.
  intros Hok Hsort Hguard.
  rewrite (@buildTree_listing baseDir ignores isRecursive localeCompare items Hok), Hguard.
  assert (Hlen : length items = length earlier + 1).
  { rewrite <- (stable_sort_length (entry_compare localeCompare) items), Hsort, length_app.
    reflexivity. }
  rewrite Hsort, Hlen.
  f_equal.
  rewrite flat_mapi_app. cbn [flat_mapi Nat.add]. rewrite app_nil_r.
  unfold connector_at, indent_at.
  replace (length earlier + 1 - 1) with (length earlier) by lia.
  rewrite Nat.eqb_refl.
  f_equal.
  apply (flat_mapi_below _ _ (n := length earlier)); [|lia].
  intros x j Hj.
  replace (Nat.eqb j (length earlier)) with false
    by (symmetry; apply Nat.eqb_neq; lia).
  reflexivity.
Qed.

End Connectors.

Lemma tree_connectors_witness :
  FileCollector._buildTree Examples.base Examples.ignores_nothing true
    Examples.codeunit_compare Examples.file_before_directory Examples.base [] 0
    [lit "root/"]
  = [lit "root/";
     FileCollector.mid_connector ++ lit "b/";
     FileCollector.mid_indent ++ FileCollector.last_connector ++ lit "c.txt";
     FileCollector.last_connector ++ lit "a.txt"].
Proof.
  refine (eq_trans
            (@tree_connectors Examples.base Examples.ignores_nothing true
               Examples.codeunit_compare _
               [(lit "b", Dir (Listing [(lit "c.txt", File (Normal false))]))]
               (lit "a.txt", File (Normal false)) Examples.base [] 0 [lit "root/"] _ _ _) _);
    vm_compute; reflexivity.
Defined.

(** ** Escaping *)

Section Escaping.
Import HTMLToPDFGenerator.

(** X6.  Escaped text holds none of the characters `<` and `>` and neither
    the double nor the single quote: whatever a file or a name contains, it
    cannot open or close a tag or an attribute of the page. *)
Theorem escapeHTML_no_markup (s : jsstring) :
  forallb (fun c => negb (N.eqb c 60 || N.eqb c 62 || N.eqb c 34 || N.eqb c 39))
          (_escapeHTML s) = true.
Proof.
  rewrite escapeHTML_chars.
  induction s as [|c s IH]; [reflexivity|].
  cbn [flat_map]. rewrite forallb_app, IH, andb_true_r.
  unfold escape_char.
  destruct (N.eqb_spec c 38); [reflexivity|].
  destruct (N.eqb_spec c 60) as [|H60]; [reflexivity|].
  destruct (N.eqb_spec c 62) as [|H62]; [reflexivity|].
  destruct (N.eqb_spec c 34) as [|H34]; [reflexivity|].
  destruct (N.eqb_spec c 39) as [|H39]; [reflexivity|].
  cbn [forallb]. rewrite andb_true_r.
  apply negb_true_iff.
  repeat (apply orb_false_iff; split); now apply N.eqb_neq.
Qed.

(** X7.  Escaping works character by character, so the escape of two texts
    put together is their escapes put together, and it loses nothing:
    reading the five entities back gives the text. *)
Theorem escapeHTML_reads_back (a b : jsstring) :
  _escapeHTML (a ++ b) = _escapeHTML a ++ _escapeHTML b
  /\ unescapeHTML (_escapeHTML a ++ _escapeHTML b) = a ++ b.
Proof.
  assert (Happ : _escapeHTML (a ++ b) = _escapeHTML a ++ _escapeHTML b)
    by (rewrite !escapeHTML_chars; apply flat_map_app).
  split; [exact Happ|].
  rewrite <- Happ. apply unescape_escapeHTML.
Qed.

Lemma escapeHTML_keeps_lines (l : jsstring) :
  forallb (fun c => negb (N.eqb c 10)) l = true ->
  forallb (fun c => negb (N.eqb c 10)) (_escapeHTML l) = true.
Proof.
  rewrite escapeHTML_chars.
  induction l as [|c l IH]; [reflexivity|].
  cbn [forallb flat_map]. intros H. apply andb_true_iff in H as [Hc Hl].
  rewrite forallb_app, (IH Hl), andb_true_r.
  unfold escape_char.
  repeat match goal with
  | |- context [N.eqb c ?k] => destruct (N.eqb c k); [reflexivity|]
  end.
  cbn [forallb]. now rewrite Hc.
Qed.

Lemma split_newline_line (l : jsstring) :
  forallb (fun c => negb (N.eqb c 10)) l = true -> split_newline l = [l].
Proof.
  induction l as [|c l IH]; [reflexivity|].
  cbn [forallb split_newline]. intros H. apply andb_true_iff in H as [Hc Hl].
  apply negb_true_iff in Hc. rewrite Hc, (IH Hl). reflexivity.
Qed.

Lemma split_newline_app_line (l rest : jsstring) :
  forallb (fun c => negb (N.eqb c 10)) l = true ->
  split_newline (l ++ 10%N :: rest) = l :: split_newline rest.
Proof.
  induction l as [|c l IH]; [reflexivity|].
  cbn [forallb app split_newline]. intros H. apply andb_true_iff in H as [Hc Hl].
  apply negb_true_iff in Hc. rewrite Hc, (IH Hl). reflexivity.
Qed.

(** Joining lines that hold no line feed and splitting again gives the
    lines. *)
Lemma split_join_newline (ls : list jsstring) :
  ls <> [] ->
  forallb (fun l => forallb (fun c => negb (N.eqb c 10)) l) ls = true ->
  split_newline (join_newline ls) = ls.
Proof.
  induction ls as [|l ls IH]; [congruence|].
  intros _ H. cbn [forallb] in H. apply andb_true_iff in H as [Hl Hls].
  destruct ls as [|l' ls].
  - cbn [join_newline]. now apply split_newline_line.
  - change (join_newline (l :: l' :: ls)) with (l ++ 10%N :: join_newline (l' :: ls)).
    rewrite (@split_newline_app_line l _ Hl).
    f_equal. apply IH; [discriminate | exact Hls].
Qed.

(** X8.  The block of the directory structure reads back as the tree: when
    there is at least one tree line and no line holds a line feed, the text
    between `<pre class="directory-tree">` and `</pre>` splits at the line
    feeds into the escaped tree lines, which read back as the tree lines. *)
Theorem directory_structure_reads_back (treeLines : list jsstring) :
  treeLines <> [] ->
  forallb (fun l => forallb (fun c => negb (N.eqb c 10)) l) treeLines = true ->
  exists body,
    _generateDirectoryStructureHTML treeLines
    = open_tag "pre" "directory-tree" ++ body ++ lit "</pre>"
    /\ map unescapeHTML (split_newline body) = treeLines.
Proof.
  intros Hne Hlines.
  exists (join_newline (map _escapeHTML treeLines)).
  split; [reflexivity|].
  rewrite split_join_newline.
  - rewrite map_map. rewrite <- (map_id treeLines) at 2.
    apply map_ext. apply unescape_escapeHTML.
  - destruct treeLines; [congruence | discriminate].
  - rewrite forallb_forall in Hlines |- *.
    intros l Hl. apply in_map_iff in Hl as [l0 [<- Hl0]].
    apply escapeHTML_keeps_lines, Hlines, Hl0.
Qed.

Lemma directory_structure_reads_back_witness :
  exists body,
    _generateDirectoryStructureHTML
      [lit "root/"; FileCollector.last_connector ++ lit "a<b>.txt"]
    = open_tag "pre" "directory-tree" ++ body ++ lit "</pre>"
    /\ map unescapeHTML (split_newline body)
       = [lit "root/"; FileCollector.last_connector ++ lit "a<b>.txt"].
Proof.
  apply directory_structure_reads_back; [discriminate | vm_compute; reflexivity].
Defined.

End Escaping.

(** ** Images and their MIME types *)

Section MimeTypes.
Import HTMLToPDFGenerator.

(** X9.  The two extension tables agree: a path that the collector
    classifies as an image has a MIME type starting with `image/`, and any
    other path, whatever the binary probe answers or throws for it, has the
    fallback `application/octet-stream`. *)
Theorem image_type_has_image_mime (filePath : jsstring)
    (isBinaryFileSync : completion bool) :
  match FileCollector._detectFileType filePath isBinaryFileSync with
  | Normal image => firstn 6 (_getMimeType filePath) = lit "image/"
  | _ => _getMimeType filePath = lit "application/octet-stream"
  end.
Proof.
  unfold FileCollector._detectFileType, _getMimeType.
  generalize (toLowerCase (Path.extname filePath)). intros ext.
  unfold FileCollector.imageExts, mimeTypes.
  cbn [map existsb find fst snd].
  repeat match goal with
  | |- context [jsstring_eqb ext ?k] =>
      destruct (jsstring_eqb ext k); [reflexivity|]; cbn [orb]
  end.
  destruct isBinaryFileSync as [[|]|e]; reflexivity.
Qed.

End MimeTypes.

(** ** The sections of the files *)

Section FileSections.
Import FileContentReader HTMLToPDFGenerator.

Lemma generateFileContentsHTML_from_acc io files :
  forall html,
  exists out,
    _generateFileContentsHTML_from io files [] = Normal out
    /\ _generateFileContentsHTML_from io files html = Normal (html ++ out).
Proof.
  induction files as [|file rest IH]; intros html.
  - exists []. split; [reflexivity | now rewrite app_nil_r].
  - cbn [_generateFileContentsHTML_from app].
    assert (Hsection : exists section,
               match type file with
               | text => _generateTextFileHTML io file
               | image => _generateImageHTML io file
               | binary => Normal (open_tag "p" "binary-notice"
                                     ++ lit "Binary file (content not displayed)"
                                     ++ lit "</p>")
               end = Normal section).
    { destruct (type file).
      - apply generateTextFileHTML_total.
      - apply generateImageHTML_total.
      - eexists; reflexivity. }
    destruct Hsection as [section ->]. cbn [bind].
    destruct (IH ((open_tag "div" "file-path" ++ lit "/"
                     ++ _escapeHTML (relativePath file) ++ lit ":</div>") ++ section))
      as [out [Hempty Hout]].
    destruct (IH ((html ++ open_tag "div" "file-path" ++ lit "/"
                     ++ _escapeHTML (relativePath file) ++ lit ":</div>") ++ section))
      as [out' [Hempty' Hout']].
    assert (out' = out) by congruence. subst out'.
    eexists. split; [exact Hout|].
    rewrite Hout'. f_equal.
    now rewrite <- !app_assoc.
Qed.

Lemma generateFileContentsHTML_from_app io files files' :
  forall html,
    _generateFileContentsHTML_from io (files ++ files') html
    = (out <- _generateFileContentsHTML_from io files html ;;
       _generateFileContentsHTML_from io files' out).
Proof.
  induction files as [|file rest IH]; intros html; [reflexivity|].
  cbn [app _generateFileContentsHTML_from].
  destruct (match type file with
            | text => _generateTextFileHTML io file
            | image => _generateImageHTML io file
            | binary => _
            end) as [section|e]; [|reflexivity].
  cbn [bind]. apply IH.
Qed.

(** X10.  The sections of a file list are built one after the other and do
    not depend on each other: the HTML of two lists put together is the HTML
    of the first followed by the HTML of the second. *)
Theorem file_sections_concatenate io (files files' : list CollectedFile) :
  exists html html',
    _generateFileContentsHTML io files = Normal html
    /\ _generateFileContentsHTML io files' = Normal html'
    /\ _generateFileContentsHTML io (files ++ files') = Normal (html ++ html').
Proof.
  unfold _generateFileContentsHTML.
  destruct (generateFileContentsHTML_from_acc io files []) as [html [Hfiles _]].
  destruct (generateFileContentsHTML_from_acc io files' html) as [html' [Hfiles' Hacc]].
  exists html, html'.
  split; [exact Hfiles|]. split; [exact Hfiles'|].
  rewrite generateFileContentsHTML_from_app, Hfiles. cbn [bind]. exact Hacc.
Qed.

(** X11.  Only text files go through the reader: for a list without text
    files the HTML is the same under any binary probe, charset detector and
    decoder, as long as the image files read the same. *)
Theorem non_text_sections_skip_the_reader io io' (files : list CollectedFile) :
  forallb (fun f => negb (is_type text f)) files = true ->
  (forall f, In f files -> readFileSync io (path f) = readFileSync io' (path f)) ->
  (forall buffer, toString_base64 io buffer = toString_base64 io' buffer) ->
  _generateFileContentsHTML io files = _generateFileContentsHTML io' files.
Proof.
  intros Htypes Hread Hbase64.
  unfold _generateFileContentsHTML. generalize (@nil N).
  induction files as [|file rest IH]; intros html; [reflexivity|].
  cbn [forallb] in Htypes. apply andb_true_iff in Htypes as [Htype Hrest].
  cbn [_generateFileContentsHTML_from].
  assert (Hsection :
            match type file with
            | text => _generateTextFileHTML io file
            | image => _generateImageHTML io file
            | binary => Normal (open_tag "p" "binary-notice"
                                  ++ lit "Binary file (content not displayed)"
                                  ++ lit "</p>")
            end
            = match type file with
              | text => _generateTextFileHTML io' file
              | image => _generateImageHTML io' file
              | binary => Normal (open_tag "p" "binary-notice"
                                    ++ lit "Binary file (content not displayed)"
                                    ++ lit "</p>")
              end).
  { unfold is_type in Htype.
    destruct (type file); [discriminate | | reflexivity].
    unfold _generateImageHTML.
    rewrite (Hread file (or_introl eq_refl)).
    destruct (readFileSync io' (path file)); [|reflexivity].
    cbn [bind try_catch]. now rewrite Hbase64. }
  rewrite Hsection.
  destruct (match type file with
            | text => _generateTextFileHTML io' file
            | image => _generateImageHTML io' file
            | binary => _
            end) as [section|e]; [|reflexivity].
  cbn [bind]. apply IH; [exact Hrest|].
  intros f Hf. apply Hread. now right.
Qed.

Lemma non_text_sections_skip_the_reader_witness :
  _generateFileContentsHTML (Examples.text_file_io Examples.hello None)
    [MoreExamples.logo; MoreExamples.blob]
  = _generateFileContentsHTML MoreExamples.other_reader_io
      [MoreExamples.logo; MoreExamples.blob].
Proof.
  apply non_text_sections_skip_the_reader.
  - reflexivity.
  - intros f _. reflexivity.
  - intros buffer. reflexivity.
Defined.

(** X12.  The per-line cap: a shown line has at most 303 characters, and its
    first 300 characters are the first 300 characters of the line. *)
Theorem displayLine_bounded (line : jsstring) :
  length (displayLine line) <= maxLineLength + 3
  /\ firstn maxLineLength (displayLine line) = firstn maxLineLength line.
Proof.
  unfold displayLine.
  destruct (Nat.ltb_spec maxLineLength (length line)) as [Hlong|Hshort].
  - split.
    + rewrite length_app, firstn_length_le by lia. cbn [length lit]. cbn. lia.
    + rewrite firstn_app, firstn_firstn, Nat.min_id.
      rewrite firstn_length_le by lia. rewrite Nat.sub_diag.
      cbn [firstn]. now rewrite app_nil_r.
  - split; [lia | reflexivity].
Qed.

End FileSections.

(** ** The result of the reader *)

Section ReaderResult.
Import FileContentReader.

(** X13.  Whatever the file system and the packages do, the reader returns
    a result of one of two kinds: an error that is not the empty string,
    with empty content; or no error, with an encoding label that is not the
    empty string. *)
Theorem getFileContent_error_or_content io (filePath : jsstring) :
  exists r,
    getFileContent io filePath = Normal r
    /\ ((truthy (error r) = true /\ content r = [])
        \/ (error r = None /\ truthy (encoding r) = true)).
Proof.
  destruct (getFileContent_shape io filePath) as [r [Hr Hshape]].
  exists r. split; [exact Hr|].
  now apply result_shape_error.
Qed.

End ReaderResult.

(** ** Fonts *)

Section Fonts.
Import FontManager.

Lemma bold_from_regular_regular (fontPaths : FontPaths) :
  regular (bold_from_regular fontPaths) = regular fontPaths.
Proof.
  unfold bold_from_regular.
  destruct (is_empty (bold fontPaths) && negb (is_empty (regular fontPaths)))%bool;
    reflexivity.
Qed.

(** After the last step of a platform search a regular font comes with a
    bold one. *)
Lemma bold_from_regular_bold (fontPaths : FontPaths) :
  is_empty (regular fontPaths) = false ->
  is_empty (bold (bold_from_regular fontPaths)) = false.
Proof.
  intros Hregular. unfold bold_from_regular. rewrite Hregular.
  destruct (is_empty (bold fontPaths)) eqn:Hbold; cbn [andb negb bold]; assumption.
Qed.

Lemma platform_search_regular_bold (h : Host) (fontPaths : FontPaths) :
  let found :=
    if jsstring_eqb (platform h) (lit "darwin") then _findMacOSFonts h fontPaths
    else if jsstring_eqb (platform h) (lit "win32") then _findWindowsFonts h fontPaths
    else if jsstring_eqb (platform h) (lit "linux") then _findLinuxFonts h fontPaths
    else fontPaths in
  is_empty (regular fontPaths) = true ->
  is_empty (regular found) = false -> is_empty (bold found) = false.
Proof.
  cbv zeta.
  destruct (jsstring_eqb (platform h) (lit "darwin")).
  { unfold _findMacOSFonts. intros _. rewrite bold_from_regular_regular.
    apply bold_from_regular_bold. }
  destruct (jsstring_eqb (platform h) (lit "win32")).
  { unfold _findWindowsFonts. intros _. rewrite bold_from_regular_regular.
    apply bold_from_regular_bold. }
  destruct (jsstring_eqb (platform h) (lit "linux")).
  { unfold _findLinuxFonts. intros _. rewrite bold_from_regular_regular.
    apply bold_from_regular_bold. }
  congruence.
Qed.

(** X14.  `findJapaneseFonts` always returns two usable names: whatever
    exists on the host, whatever the platform and whatever `fc-list` prints
    or throws, neither the regular nor the bold font is the empty string. *)
Theorem fonts_never_empty (h : Host) (customFontPath : option jsstring) :
  is_empty (regular (findJapaneseFonts h customFontPath)) = false
  /\ is_empty (bold (findJapaneseFonts h customFontPath)) = false.
Proof.
  unfold findJapaneseFonts.
  destruct (truthy customFontPath && existsSync h (or_default customFontPath []))%bool
    eqn:Hcustom.
  - apply andb_true_iff in Hcustom as [Hcustom _].
    destruct customFontPath as [[|c s]|]; try discriminate. split; reflexivity.
  - pose proof (platform_search_regular_bold h {| regular := []; bold := [] |}) as Hfound.
    cbv zeta in Hfound. specialize (Hfound eq_refl).
    destruct (is_empty (regular _)) eqn:Hregular.
    + split; reflexivity.
    + split; [exact Hregular | now apply Hfound].
Qed.

Lemma first_existing_In (h : Host) (fonts : list jsstring) (font : jsstring) :
  first_existing h fonts = Some font -> In font fonts.
Proof.
  induction fonts as [|f fonts IH]; cbn [first_existing]; [discriminate|].
  destruct (existsSync h f); [intros [= <-]; now left | right; now apply IH].
Qed.

Lemma first_existing_ext (h h' : Host) (fonts : list jsstring) :
  (forall p, existsSync h' p = existsSync h p) ->
  first_existing h' fonts = first_existing h fonts.
Proof.
  intros Hexists. induction fonts as [|f fonts IH]; [reflexivity|].
  cbn [first_existing]. now rewrite Hexists, IH.
Qed.

Lemma candidates_not_empty (platform : jsstring) (font : jsstring) :
  In font (regular_candidates platform) -> is_empty font = false.
Proof.
  unfold regular_candidates.
  destruct (jsstring_eqb platform (lit "darwin")).
  { intros H. repeat (destruct H as [<-|H]; [reflexivity|]). destruct H. }
  destruct (jsstring_eqb platform (lit "win32")).
  { intros H. repeat (destruct H as [<-|H]; [reflexivity|]). destruct H. }
  destruct (jsstring_eqb platform (lit "linux")).
  { intros H. repeat (destruct H as [<-|H]; [reflexivity|]). destruct H. }
  intros [].
Qed.

Lemma pick_candidates_regular (h : Host) (regulars bolds : list jsstring)
    (fontPaths : FontPaths) (font : jsstring) :
  first_existing h regulars = Some font ->
  regular (pick_candidates h regulars bolds fontPaths) = font.
Proof.
  intros Hfirst. unfold pick_candidates. rewrite Hfirst.
  destruct (first_existing h bolds); reflexivity.
Qed.

Lemma pick_candidates_ext (h h' : Host) (regulars bolds : list jsstring)
    (fontPaths : FontPaths) :
  (forall p, existsSync h' p = existsSync h p) ->
  pick_candidates h' regulars bolds fontPaths = pick_candidates h regulars bolds fontPaths.
Proof.
  intros Hexists. unfold pick_candidates.
  now rewrite !(first_existing_ext h h' _ Hexists).
Qed.

(** X15.  The candidates of the platform come before `fc-list`: when no
    usable custom font is given and a regular candidate of the platform
    exists, the regular font is the first such candidate in the order of the
    table, and the result does not depend on what `fc-list` would print. *)
Theorem table_font_comes_first (h h' : Host) (customFontPath : option jsstring)
    (font : jsstring) :
  (truthy customFontPath && existsSync h (or_default customFontPath []))%bool = false ->
  first_existing h (regular_candidates (platform h)) = Some font ->
  (forall p, existsSync h' p = existsSync h p) ->
  platform h' = platform h ->
  regular (findJapaneseFonts h customFontPath) = font
  /\ findJapaneseFonts h' customFontPath = findJapaneseFonts h customFontPath.
Proof.
  intros Hcustom Hfirst Hexists Hplatform.
  pose proof (candidates_not_empty _ _ (first_existing_In _ _ Hfirst)) as Hfont.
  unfold findJapaneseFonts.
  rewrite Hexists, Hcustom, Hplatform.
  unfold regular_candidates in Hfirst.
  unfold _findMacOSFonts, _findWindowsFonts, _findLinuxFonts.
  rewrite !(pick_candidates_ext h h' _ _ _ Hexists).
  assert (Hdone : forall bolds,
             regular (bold_from_regular
                        (pick_candidates h (regular_candidates (platform h)) bolds
                           {| regular := []; bold := [] |})) = font).
  { intros bolds. rewrite bold_from_regular_regular.
    unfold regular_candidates. now apply pick_candidates_regular. }
  unfold regular_candidates in Hdone.
  destruct (jsstring_eqb (platform h) (lit "darwin")).
  { rewrite !(pick_candidates_regular _ _ _ _ Hfirst), Hfont.
    rewrite !Hdone, Hfont. split; [apply Hdone | reflexivity]. }
  destruct (jsstring_eqb (platform h) (lit "win32")).
  { rewrite !Hdone, Hfont. split; [apply Hdone | reflexivity]. }
  destruct (jsstring_eqb (platform h) (lit "linux")).
  { rewrite !(pick_candidates_regular _ _ _ _ Hfirst), Hfont.
    rewrite !Hdone, Hfont. split; [apply Hdone | reflexivity]. }
  discriminate.
Qed.

End Fonts.

Lemma table_font_comes_first_witness :
  FontManager.regular (FontManager.findJapaneseFonts MoreExamples.ipa_only None)
  = lit "/usr/share/fonts/opentype/ipaexfont-gothic/ipaexg.ttf"
  /\ FontManager.findJapaneseFonts MoreExamples.ipa_with_fc_list None
     = FontManager.findJapaneseFonts MoreExamples.ipa_only None.
Proof.
  apply table_font_comes_first.
  - reflexivity.
  - vm_compute. reflexivity.
  - intros p. reflexivity.
  - reflexivity.
Defined.

(** ** The two generators *)

Section TwoGenerators.
Import FileContentReader.

Lemma wk_for_lines (todo i : nat) (displayLines : list jsstring) (html : jsstring) :
  WkHTMLToPDFGenerator.for_lines todo i displayLines html
  = HTMLToPDFGenerator.for_lines todo i displayLines html.
Proof.
  revert i html. induction todo as [|todo IH]; intros i html; [reflexivity|].
  cbn [WkHTMLToPDFGenerator.for_lines HTMLToPDFGenerator.for_lines].
  rewrite IH. reflexivity.
Qed.

Lemma wk_generateTextFileHTML io (file : CollectedFile) :
  WkHTMLToPDFGenerator._generateTextFileHTML io file
  = HTMLToPDFGenerator._generateTextFileHTML io file.
Proof.
  unfold WkHTMLToPDFGenerator._generateTextFileHTML,
    HTMLToPDFGenerator._generateTextFileHTML.
  destruct (getFileContent io (path file)) as [r|e]; [|reflexivity].
  cbn [bind].
  destruct (truthy (error r)); [reflexivity|].
  cbv zeta. rewrite wk_for_lines. reflexivity.
Qed.

(** X16.  The two generators differ in their images only: for a file list
    without image files the wkhtmltopdf generator and the Puppeteer generator
    build the same HTML of the file contents. *)
Theorem generators_agree_without_images io (files : list CollectedFile) :
  forallb (fun f => negb (is_type image f)) files = true ->
  WkHTMLToPDFGenerator._generateFileContentsHTML io files
  = HTMLToPDFGenerator._generateFileContentsHTML io files.
Proof.
  intros Htypes.
  unfold WkHTMLToPDFGenerator._generateFileContentsHTML,
    HTMLToPDFGenerator._generateFileContentsHTML.
  generalize (@nil N).
  induction files as [|file rest IH]; intros html; [reflexivity|].
  cbn [forallb] in Htypes. apply andb_true_iff in Htypes as [Htype Hrest].
  cbn [WkHTMLToPDFGenerator._generateFileContentsHTML_from
       HTMLToPDFGenerator._generateFileContentsHTML_from].
  unfold is_type in Htype.
  destruct (type file); [ | discriminate | ].
  - rewrite wk_generateTextFileHTML.
    destruct (HTMLToPDFGenerator._generateTextFileHTML io file); [|reflexivity].
    cbn [bind]. now apply IH.
  - cbn [bind]. now apply IH.
Qed.

End TwoGenerators.

Lemma generators_agree_without_images_witness :
  WkHTMLToPDFGenerator._generateFileContentsHTML
    (Examples.text_file_io Examples.hello None) [Examples.some_file; MoreExamples.blob]
  = HTMLToPDFGenerator._generateFileContentsHTML
      (Examples.text_file_io Examples.hello None) [Examples.some_file; MoreExamples.blob].
Proof.
  apply generators_agree_without_images. reflexivity.
Defined.

(** ** The diagnosis of control characters *)

Section Diagnosis.
Import FileContentReader FileContentDiagnosis.
Open Scope Z_scope.

Lemma divide_scale (c t : Z) :
  0 < c <= t ->
  52 <= scale (divide c t) /\ t * 2 ^ 52 <= c * 2 ^ scale (divide c t).
Proof.
  intros [Hc Hct]. assert (Ht : 0 < t) by lia.
  unfold divide. cbn [scale].
  pose proof (Z.log2_le_mono c t Hct) as Hab.
  set (a := Z.log2 c) in *. set (b := Z.log2 t) in *.
  destruct (Z.log2_spec c Hc) as [Hc1 Hc2]. fold a in Hc1, Hc2.
  destruct (Z.log2_spec t Ht) as [Ht1 Ht2]. fold b in Ht1, Ht2.
  assert (Ha : 0 <= a) by apply Z.log2_nonneg.
  destruct (c * 2 ^ (52 + b - a) <? t * 2 ^ 52) eqn:Hlt.
  - split; [lia|].
    replace (52 + b - a + 1) with ((53 + b) - a) by lia.
    assert (Hpow : 2 ^ a * 2 ^ (53 + b - a) = 2 ^ (53 + b)).
    { rewrite <- Z.pow_add_r by lia. f_equal. lia. }
    assert (Hpow' : 2 ^ (53 + b) = 2 ^ 52 * 2 ^ (b + 1)).
    { rewrite <- Z.pow_add_r by lia. f_equal. lia. }
    replace (Z.succ b) with (b + 1) in Ht2 by lia.
    assert (0 < 2 ^ (53 + b - a)) by (apply Z.pow_pos_nonneg; lia).
    nia.
  - apply Z.ltb_ge in Hlt. split; [lia|exact Hlt].
Qed.

(** The result is within half a unit of the last place of the quotient. *)
Lemma divide_rounds (c t : Z) :
  0 < t ->
  2 * (mantissa (divide c t) * t - c * 2 ^ scale (divide c t)) <= t
  /\ - t <= 2 * (mantissa (divide c t) * t - c * 2 ^ scale (divide c t)).
Proof.
  intros Ht. unfold divide. cbn [mantissa scale].
  set (k := if _ <? _ then _ else _).
  pose proof (Z.div_mod (c * 2 ^ k) t ltac:(lia)) as Hdm.
  pose proof (Z.mod_pos_bound (c * 2 ^ k) t Ht) as Hr.
  set (q := c * 2 ^ k / t) in *. set (r := (c * 2 ^ k) mod t) in *.
  destruct (t <? 2 * r) eqn:H1; cbn [orb].
  - apply Z.ltb_lt in H1. lia.
  - apply Z.ltb_ge in H1.
    destruct (t =? 2 * r) eqn:H2; cbn [andb].
    + apply Z.eqb_eq in H2. destruct (Z.odd q); lia.
    + lia.
Qed.

(** On the lengths a string can have, the quotient exceeds the double 0.1
    exactly when the count exceeds a tenth of the total. *)
Lemma divide_exceeds_tenth (c t : Z) :
  0 < c <= t -> t < 2 ^ 30 ->
  exceeds_tenth_double (divide c t) = (t <? 10 * c).
Proof.
  intros [Hc Hct] Ht.
  destruct (@divide_scale c t) as [Hk Hnorm]; [lia|].
  destruct (@divide_rounds c t) as [Hup Hdown]; [lia|].
  unfold exceeds_tenth_double.
  set (m := mantissa (divide c t)) in *. set (k := scale (divide c t)) in *.
  assert (HP : 0 < 2 ^ k) by (apply Z.pow_pos_nonneg; lia).
  change (2 ^ 30) with 1073741824 in Ht.
  change (2 ^ 52) with 4503599627370496 in Hnorm.
  change (2 ^ 55) with 36028797018963968. unfold tenth_55.
  destruct (t <? 10 * c) eqn:Hscreen.
  - apply Z.ltb_lt in Hscreen. apply Z.ltb_lt.
    assert (H52 : 4503599627370496 <= 2 ^ k) by nia.
    set (P := 2 ^ k) in *. clearbody P m.
    assert (20 * m * t >= 2 * (t + 1) * P - 10 * t) by nia.
    nia.
  - apply Z.ltb_ge in Hscreen. apply Z.ltb_ge.
    assert (H56 : 56 <= k).
    { destruct (Z.le_gt_cases 56 k) as [H|H]; [exact H|].
      assert (2 ^ k <= 2 ^ 55) by (apply Z.pow_le_mono_r; lia).
      change (2 ^ 55) with 36028797018963968 in *. nia. }
    assert (Hm : 10 * m <= 2 ^ k + 5).
    { set (P := 2 ^ k) in *. clearbody P m. nia. }
    destruct (Z.eq_dec k 56) as [Hk56|Hne].
    + rewrite Hk56 in *. change (2 ^ 56) with 72057594037927936 in *. lia.
    + assert (Hsplit : 2 ^ k = 2 ^ 57 * 2 ^ (k - 57)).
      { rewrite <- Z.pow_add_r by lia. f_equal. lia. }
      assert (0 < 2 ^ (k - 57)) by (apply Z.pow_pos_nonneg; lia).
      change (2 ^ 57) with 144115188075855872 in Hsplit.
      set (R := 2 ^ (k - 57)) in *. set (P := 2 ^ k) in *. clearbody R P m. lia.
Qed.

Lemma divide_positive (c t : Z) :
  0 < c <= t -> 0 < mantissa (divide c t) <= 2 ^ scale (divide c t).
Proof.
  intros [Hc Hct].
  destruct (@divide_scale c t) as [Hk Hnorm]; [lia|].
  destruct (@divide_rounds c t) as [Hup Hdown]; [lia|].
  set (m := mantissa (divide c t)) in *. set (k := scale (divide c t)) in *.
  assert (HP : 0 < 2 ^ k) by (apply Z.pow_pos_nonneg; lia).
  change (2 ^ 52) with 4503599627370496 in Hnorm.
  set (P := 2 ^ k) in *. clearbody P m.
  split; nia.
Qed.

Lemma divide_zero (t : Z) : 0 < t -> mantissa (divide 0 t) = 0.
Proof.
  intros Ht. unfold divide. cbn [mantissa].
  rewrite !Z.mul_0_l, Z.div_0_l, Z.mod_0_l by lia.
  replace (t <? 2 * 0) with false by (symmetry; apply Z.ltb_ge; lia).
  replace (t =? 2 * 0) with false by (symmetry; apply Z.eqb_neq; lia).
  reflexivity.
Qed.

Lemma filter_length_le {A} (f : A -> bool) (l : list A) :
  (length (filter f l) <= length l)%nat.
Proof.
  induction l as [|a l IH]; [apply Nat.le_refl|].
  cbn [filter length]. destruct (f a); cbn [length]; lia.
Qed.

Lemma diagnose_count (content : jsstring) :
  count (diagnoseControlCharacters content) = length (filter is_control content).
Proof.
  unfold diagnoseControlCharacters, match_control. cbn [count].
  destruct (filter is_control content); reflexivity.
Qed.

(** X17.  The diagnosis agrees with the screen of `getFileContent`: for a
    content of fewer than 2^30 characters, the count is at most the total, the
    ratio is at most 1, it is zero exactly when no control character was
    counted, and it exceeds 0.1 exactly when `getFileContent` would refuse
    the content for its control characters. *)
Theorem diagnosis_agrees_with_screen (content : jsstring) :
  Z.of_nat (length content) < 2 ^ 30 ->
  (count (diagnoseControlCharacters content)
     <= total (diagnoseControlCharacters content))%nat
  /\ at_most_one (ratio (diagnoseControlCharacters content)) = true
  /\ is_zero (ratio (diagnoseControlCharacters content))
     = Nat.eqb (count (diagnoseControlCharacters content)) 0
  /\ exceeds_tenth_double (ratio (diagnoseControlCharacters content))
     = too_many_control content.
Proof.
  intros Hbound.
  rewrite (too_many_control_count _ Hbound).
  rewrite diagnose_count.
  pose proof (filter_length_le is_control content) as Hle.
  unfold diagnoseControlCharacters. cbn [ratio total].
  replace (match match_control content with
           | Some controlChars => length controlChars
           | None => 0%nat
           end) with (length (filter is_control content))
    by (unfold match_control; destruct (filter is_control content); reflexivity).
  set (c := length (filter is_control content)) in *.
  set (t := length content) in *.
  split; [exact Hle|].
  destruct (Nat.ltb 0 t) eqn:Ht.
  - apply Nat.ltb_lt in Ht.
    destruct c as [|c'].
    + change (Z.of_nat 0) with 0.
      unfold at_most_one, is_zero, exceeds_tenth_double.
      rewrite divide_zero by lia.
      split; [apply Z.leb_le, Z.pow_nonneg; lia|].
      split; [reflexivity|].
      rewrite Z.mul_0_l.
      replace (Nat.ltb t (10 * 0)) with false by (symmetry; apply Nat.ltb_ge; lia).
      apply Z.ltb_ge. unfold tenth_55.
      assert (0 <= 2 ^ scale (divide 0 (Z.of_nat t))) by (apply Z.pow_nonneg; lia).
      lia.
    + destruct (@divide_positive (Z.of_nat (S c')) (Z.of_nat t)) as [Hpos Hone]; [lia|].
      unfold at_most_one, is_zero.
      split; [now apply Z.leb_le|].
      split; [cbn [Nat.eqb]; apply Z.eqb_neq; lia|].
      rewrite divide_exceeds_tenth by lia.
      destruct (Nat.ltb t (10 * S c')) eqn:Hscreen.
      * apply Nat.ltb_lt in Hscreen. apply Z.ltb_lt. lia.
      * apply Nat.ltb_ge in Hscreen. apply Z.ltb_ge. lia.
  - apply Nat.ltb_ge in Ht.
    assert (Hc : c = 0%nat) by lia. rewrite Hc.
    split; [reflexivity|]. split; [reflexivity|].
    replace (Nat.ltb t (10 * 0)) with false by (symmetry; apply Nat.ltb_ge; lia).
    reflexivity.
Qed.

End Diagnosis.

Lemma diagnosis_agrees_with_screen_witness :
  (FileContentDiagnosis.count
     (FileContentDiagnosis.diagnoseControlCharacters (bytes_as_text Examples.control_150_of_1000))
   <= FileContentDiagnosis.total
        (FileContentDiagnosis.diagnoseControlCharacters (bytes_as_text Examples.control_150_of_1000)))
  /\ FileContentDiagnosis.at_most_one
       (FileContentDiagnosis.ratio
          (FileContentDiagnosis.diagnoseControlCharacters (bytes_as_text Examples.control_150_of_1000)))
     = true
  /\ FileContentDiagnosis.is_zero
       (FileContentDiagnosis.ratio
          (FileContentDiagnosis.diagnoseControlCharacters (bytes_as_text Examples.control_150_of_1000)))
     = Nat.eqb
         (FileContentDiagnosis.count
            (FileContentDiagnosis.diagnoseControlCharacters (bytes_as_text Examples.control_150_of_1000)))
         0
  /\ FileContentDiagnosis.exceeds_tenth_double
       (FileContentDiagnosis.ratio
          (FileContentDiagnosis.diagnoseControlCharacters (bytes_as_text Examples.control_150_of_1000)))
     = FileContentReader.too_many_control (bytes_as_text Examples.control_150_of_1000).
Proof.
  apply diagnosis_agrees_with_screen. vm_compute. reflexivity.
Defined.

(** ** What the options can change in the file list *)

Lemma subsequence_refl {A : Type} (l : list A) : subsequence l l.
Proof.
  induction l as [|x l IH]; [constructor|now apply subsequence_keep].
Qed.

Lemma subsequence_nil_l {A : Type} (l : list A) : subsequence [] l.
Proof.
  induction l as [|x l IH]; [constructor|now apply subsequence_skip].
Qed.

Lemma subsequence_app {A : Type} (l1 l1' l2 l2' : list A) :
  subsequence l1 l1' -> subsequence l2 l2' -> subsequence (l1 ++ l2) (l1' ++ l2').
Proof.
  intros H1 H2. induction H1 as [|x l l' H IH|x l l' H IH]; cbn [app].
  - exact H2.
  - now apply subsequence_skip.
  - now apply subsequence_keep.
Qed.

Lemma subsequence_flat_map {A B : Type} (f g : A -> list B) (l : list A) :
  (forall x, In x l -> subsequence (f x) (g x)) ->
  subsequence (flat_map f l) (flat_map g l).
Proof.
  induction l as [|x l IH]; intros H; cbn [flat_map]; [constructor|].
  apply subsequence_app.
  - apply H. now left.
  - apply IH. intros y Hy. apply H. now right.
Qed.

Section Options.
Import FileCollector.
Variable baseDir : jsstring.
Variables ignores ignores' : jsstring -> bool.
Variable isRecursive : bool.
Hypothesis more_ignored : forall p, ignores p = true -> ignores' p = true.

(** What a sound directory lists. *)
Lemma sound_entry (items : list (jsstring * node)) (item : jsstring) (child : node) :
  sound (Listing items) = true -> In (item, child) items ->
  (exists isBinary, child = File (Normal isBinary))
  \/ (exists sub, child = Dir sub /\ sound sub = true).
Proof.
  cbn [sound]. rewrite forallb_forall. intros H Hin.
  specialize (H _ Hin). cbn [snd] in H.
  destruct child as [[isBinary|e]|sub|e]; try discriminate.
  - left. now exists isBinary.
  - right. now exists sub.
Qed.

Lemma sound_entries_ok (items : list (jsstring * node)) :
  sound (Listing items) = true -> entries_ok items = true.
Proof.
  intros Hsound. apply forallb_forall. intros [item child] Hin.
  destruct (@sound_entry items item child Hsound Hin) as [[isBinary ->]|[sub [-> _]]];
    reflexivity.
Qed.

Lemma files_of_subsequence (dir : directory) :
  forall dirPath,
    sound dir = true ->
    subsequence (files_of baseDir ignores' isRecursive dir dirPath)
                (files_of baseDir ignores isRecursive dir dirPath).
Proof.
  induction dir as [e|files IH] using directory_induction; intros dirPath Hsound.
  - constructor.
  - pose proof (@sound_entries_ok files Hsound) as Hok.
    rewrite !files_of_listing.
    rewrite (@entries_ok_until baseDir ignores dirPath files Hok).
    rewrite (@entries_ok_until baseDir ignores' dirPath files Hok).
    apply subsequence_flat_map.
    intros [file child] Hin.
    unfold entry_files. cbn [fst snd].
    destruct (ignores (Path.relative baseDir (Path.join dirPath file))) eqn:Hignored.
    + rewrite (@more_ignored _ Hignored). constructor.
    + destruct (ignores' _); [apply subsequence_nil_l|].
      destruct (@sound_entry files file child Hsound Hin)
        as [[isBinary ->]|[sub [-> Hsub]]].
      * apply subsequence_refl.
      * destruct isRecursive; [|constructor].
        now apply (IH file sub Hin).
Qed.

End Options.

(** X18.  The recursive flag only adds files: the files collected without it
    are among the files collected with it, in the same order. *)
Theorem recursive_flag_only_adds (baseDir : jsstring) (ignores : jsstring -> bool)
    (root : directory) :
  subsequence (FileCollector.collectFiles baseDir ignores false root)
              (FileCollector.collectFiles baseDir ignores true root).
Proof.
  rewrite !collectFiles_files_of.
  destruct root as [items|e]; [|constructor].
  rewrite !files_of_listing.
  apply subsequence_flat_map.
  intros [file child] _.
  unfold entry_files. cbn [fst snd].
  destruct (ignores _); [constructor|].
  destruct child as [isBinary|sub|e];
    [apply subsequence_refl | apply subsequence_nil_l | constructor].
Qed.

(** X19.  Among names that can all be stat'ed and probed, ignoring more
    never adds a file: when every path ignored by one manager is ignored by
    a second one, the files collected with the second are among the files
    collected with the first, in the same order. *)
Theorem ignoring_more_only_removes (baseDir : jsstring)
    (ignores ignores' : jsstring -> bool) (isRecursive : bool) (root : directory) :
  sound root = true ->
  (forall p, ignores p = true -> ignores' p = true) ->
  subsequence (FileCollector.collectFiles baseDir ignores' isRecursive root)
              (FileCollector.collectFiles baseDir ignores isRecursive root).
Proof.
  intros Hsound Hmore. rewrite !collectFiles_files_of.
  now apply files_of_subsequence.
Qed.

Lemma ignoring_more_only_removes_witness :
  subsequence
    (FileCollector.collectFiles Examples.base Examples.ignores_z_log true
       Examples.text_and_log)
    (FileCollector.collectFiles Examples.base Examples.ignores_nothing true
       Examples.text_and_log).
Proof.
  apply ignoring_more_only_removes; [reflexivity|].
  intros p Hp. discriminate Hp.
Defined.

(** ** A name that cannot be stat'ed *)

(** X20.  A name of the root on which `statSync` throws ends the walk of the
    root where it stands, unless it is ignored: the file list is the one of
    the entries listed before it, and the entries listed after it are
    dropped; when the name is ignored, the file list is the one of the root
    without it.  In the tree, which sorts the names before it tests them,
    the root then has one `Error:` line in place of all its entries, ignored
    or not. *)
Theorem unstatable_name_ends_the_walk (baseDir : jsstring) (ignores : jsstring -> bool)
    (localeCompare : jsstring -> jsstring -> Z) (isRecursive : bool)
    (before after : list (jsstring * node)) (name : jsstring) (e : thrown) :
  FileCollector.collectFiles baseDir ignores isRecursive
    (Listing (before ++ (name, NoStat e) :: after))
  = (if ignores name
     then FileCollector.collectFiles baseDir ignores isRecursive (Listing (before ++ after))
     else FileCollector.collectFiles baseDir ignores isRecursive (Listing before))
  /\ exists item e',
       In (item, NoStat e') (before ++ (name, NoStat e) :: after)
       /\ FileCollector.getDirectoryStructure baseDir ignores isRecursive localeCompare
            (Listing (before ++ (name, NoStat e) :: after))
          = [Path.basename baseDir ++ lit "/"; lit "Error: " ++ thrown_text e'].
Proof.
  split.
  - rewrite !collectFiles_files_of, !files_of_listing.
    destruct (ignores name) eqn:Hignored.
    + apply flat_map_until_without.
      * unfold stops. cbn [fst snd]. now rewrite relative_join, Hignored.
      * unfold entry_files. cbn [fst snd]. now rewrite relative_join, Hignored.
    + apply flat_map_until_stop.
      unfold stops. cbn [fst snd]. now rewrite relative_join, Hignored.
  - destruct (@buildTree_listing_error baseDir ignores isRecursive localeCompare
                (before ++ (name, NoStat e) :: after)) as [item [e' [Hin Herror]]].
    + unfold all_stat_ok. rewrite forallb_app. cbn [forallb snd stat_ok andb].
      apply andb_false_r.
    + exists item, e'. split; [exact Hin|].
      unfold FileCollector.getDirectoryStructure. rewrite Herror. reflexivity.
Qed.

